(** * A shallow embedding of the semantic cache engine (database.js)

    The development follows the [DatabaseManager] class: the fingerprint
    generator ([generateQueryHash]), the keyword extractor
    ([extractKeywords]), the conversation store ([saveConversation],
    [updateUsageCount], [cleanupOldRecords]) and the similarity ranker
    ([findSimilarConversations]), over a model of the three tables of
    schema.sql, and the routes of server.js that use them.

    Modelling conventions.
    - A JavaScript string is the list of its UTF-16 code units.
    - JavaScript numbers and SQL REAL values that hold weights and
      similarities are IEEE 754 doubles ([Double.t]), computed with the
      operations of the Standard Library's [SpecFloat] at binary64.
    - The storage engine is a value of type [database]; every statement
      that can fail at run time takes its failure from the caller of the
      model.  The statements issued on the connection take effect in the
      order in which the code issues them.
    - The callback that [saveConversation] passes to the INSERT OR REPLACE
      is written with [function]: its [this] is the statement object the
      sqlite3 driver binds (the one [cleanupOldRecords] reads
      [this.changes] from), which has no [db] property.  Every
      [this.db.run(...)] inside that callback therefore throws a
      TypeError before the statement is issued. *)

From Stdlib Require Import List ZArith NArith QArith Bool Lia String Ascii.
From Stdlib Require Import Sorting.Sorted Permutation Qround Lqa.
From Stdlib Require Floats.SpecFloat.
Import ListNotations.

(** ** JavaScript strings *)

Module JS.

Definition str := list N.

Definition str_eqb (a b : str) : bool :=
  if list_eq_dec N.eq_dec a b then true else false.

(** Code units of a literal written in UTF-8 in this file. *)
Fixpoint utf16_of_utf8 (bs : list N) : str :=
  match bs with
  | [] => []
  | b0 :: r0 =>
    if (b0 <? 0x80)%N then b0 :: utf16_of_utf8 r0
    else match r0 with
    | [] => [0xFFFD%N]
    | b1 :: r1 =>
      if (b0 <? 0xE0)%N
      then ((b0 - 0xC0) * 64 + (b1 - 0x80))%N :: utf16_of_utf8 r1
      else match r1 with
      | [] => [0xFFFD%N]
      | b2 :: r2 =>
        if (b0 <? 0xF0)%N
        then ((b0 - 0xE0) * 4096 + (b1 - 0x80) * 64 + (b2 - 0x80))%N
               :: utf16_of_utf8 r2
        else match r2 with
        | [] => [0xFFFD%N]
        | b3 :: r3 =>
          let cp := ((b0 - 0xF0) * 262144 + (b1 - 0x80) * 4096
                     + (b2 - 0x80) * 64 + (b3 - 0x80))%N in
          (0xD800 + (cp - 0x10000) / 1024)%N
            :: (0xDC00 + (cp - 0x10000) mod 1024)%N :: utf16_of_utf8 r3
        end
      end
    end
  end.

Definition lit (s : string) : str :=
  utf16_of_utf8 (map N_of_ascii (list_ascii_of_string s)).

Definition is_high_surrogate (u : N) : bool := ((0xD800 <=? u) && (u <? 0xDC00))%N.
Definition is_low_surrogate (u : N) : bool := ((0xDC00 <=? u) && (u <? 0xE000))%N.

(** The bytes Node hashes for a string: its UTF-8 encoding, a lone
    surrogate becoming U+FFFD. *)
Fixpoint utf8_encode (s : str) : list N :=
  match s with
  | [] => []
  | u :: r =>
    if (u <? 0x80)%N then u :: utf8_encode r
    else if (u <? 0x800)%N
    then (0xC0 + u / 64)%N :: (0x80 + u mod 64)%N :: utf8_encode r
    else if is_high_surrogate u then
      match r with
      | lo :: r' =>
        if is_low_surrogate lo then
          let cp := (0x10000 + (u - 0xD800) * 1024 + (lo - 0xDC00))%N in
          (0xF0 + cp / 262144)%N :: (0x80 + (cp / 4096) mod 64)%N
            :: (0x80 + (cp / 64) mod 64)%N :: (0x80 + cp mod 64)%N
            :: utf8_encode r'
        else 0xEF%N :: 0xBF%N :: 0xBD%N :: utf8_encode r
      | [] => [0xEF%N; 0xBF%N; 0xBD%N]
      end
    else if is_low_surrogate u
    then 0xEF%N :: 0xBF%N :: 0xBD%N :: utf8_encode r
    else (0xE0 + u / 4096)%N :: (0x80 + (u / 64) mod 64)%N
           :: (0x80 + u mod 64)%N :: utf8_encode r
  end.

(** [String.prototype.toLowerCase], one code unit at a time.  The table
    covers Basic Latin, Latin-1 and U+0400 to U+045F of the Cyrillic
    block; the other code units are left as they are. *)
Definition lower_unit (u : N) : N :=
  if ((0x41 <=? u) && (u <=? 0x5A))%N then (u + 0x20)%N
  else if ((0xC0 <=? u) && (u <=? 0xDE) && negb (u =? 0xD7))%N then (u + 0x20)%N
  else if ((0x400 <=? u) && (u <=? 0x40F))%N then (u + 0x50)%N
  else if ((0x410 <=? u) && (u <=? 0x42F))%N then (u + 0x20)%N
  else u.

Definition toLowerCase (s : str) : str := map lower_unit s.

(** The code units of that table: Basic Latin, Latin-1 Supplement and
    U+0400 to U+045F.  On a text made of these units only, [toLowerCase]
    is the whole of [String.prototype.toLowerCase]; a text with other
    cased letters (Greek, U+0130, U+212A, ...) is outside the model. *)
Definition in_table (u : N) : bool :=
  ((u <=? 0xFF) || ((0x400 <=? u) && (u <=? 0x45F)))%N.

Definition covered (s : str) : bool := forallb in_table s.

(** White space and line terminators, as [String.prototype.trim] sees
    them. *)
Definition is_space (u : N) : bool :=
  (((0x09 <=? u) && (u <=? 0x0D)) || (u =? 0x20) || (u =? 0xA0)
   || (u =? 0x1680) || ((0x2000 <=? u) && (u <=? 0x200A))
   || (u =? 0x2028) || (u =? 0x2029) || (u =? 0x202F) || (u =? 0x205F)
   || (u =? 0x3000) || (u =? 0xFEFF))%N.

Fixpoint trimStart (s : str) : str :=
  match s with
  | u :: r => if is_space u then trimStart r else s
  | [] => []
  end.

Definition trimEnd (s : str) : str := rev (trimStart (rev s)).

Definition trim (s : str) : str := trimEnd (trimStart s).

(** Order of two texts, code unit by code unit (the byte order SQLite
    uses on TEXT, for strings without surrogates). *)
Fixpoint ltb (a b : str) : bool :=
  match a, b with
  | [], [] => false
  | [], _ :: _ => true
  | _ :: _, [] => false
  | x :: a', y :: b' =>
    if (x <? y)%N then true else if (y <? x)%N then false else ltb a' b'
  end.

End JS.

(** ** MD5 (crypto.createHash('md5')) *)

Module MD5.

Definition word := N.
Definition state := (word * word * word * word)%type.

Definition mask32 (x : N) : word := (x mod 0x100000000)%N.
Definition add32 (x y : word) : word := mask32 (x + y).
Definition not32 (x : word) : word := N.lxor x 0xFFFFFFFF%N.
Definition rotl32 (x : word) (c : N) : word :=
  mask32 (N.lor (N.shiftl x c) (N.shiftr x (32 - c))).

Definition K : list word :=
  [ 0xd76aa478; 0xe8c7b756; 0x242070db; 0xc1bdceee; 0xf57c0faf; 0x4787c62a;
    0xa8304613; 0xfd469501; 0x698098d8; 0x8b44f7af; 0xffff5bb1; 0x895cd7be;
    0x6b901122; 0xfd987193; 0xa679438e; 0x49b40821; 0xf61e2562; 0xc040b340;
    0x265e5a51; 0xe9b6c7aa; 0xd62f105d; 0x02441453; 0xd8a1e681; 0xe7d3fbc8;
    0x21e1cde6; 0xc33707d6; 0xf4d50d87; 0x455a14ed; 0xa9e3e905; 0xfcefa3f8;
    0x676f02d9; 0x8d2a4c8a; 0xfffa3942; 0x8771f681; 0x6d9d6122; 0xfde5380c;
    0xa4beea44; 0x4bdecfa9; 0xf6bb4b60; 0xbebfbc70; 0x289b7ec6; 0xeaa127fa;
    0xd4ef3085; 0x04881d05; 0xd9d4d039; 0xe6db99e5; 0x1fa27cf8; 0xc4ac5665;
    0xf4292244; 0x432aff97; 0xab9423a7; 0xfc93a039; 0x655b59c3; 0x8f0ccc92;
    0xffeff47d; 0x85845dd1; 0x6fa87e4f; 0xfe2ce6e0; 0xa3014314; 0x4e0811a1;
    0xf7537e82; 0xbd3af235; 0x2ad7d2bb; 0xeb86d391 ]%N.

Definition S : list N :=
  [ 7; 12; 17; 22; 7; 12; 17; 22; 7; 12; 17; 22; 7; 12; 17; 22;
    5; 9; 14; 20; 5; 9; 14; 20; 5; 9; 14; 20; 5; 9; 14; 20;
    4; 11; 16; 23; 4; 11; 16; 23; 4; 11; 16; 23; 4; 11; 16; 23;
    6; 10; 15; 21; 6; 10; 15; 21; 6; 10; 15; 21; 6; 10; 15; 21 ]%N.

Definition init : state :=
  (0x67452301, 0xefcdab89, 0x98badcfe, 0x10325476)%N.

Definition le_bytes (n : nat) (x : N) : list N :=
  map (fun i => (N.shiftr x (8 * N.of_nat i) mod 256)%N) (seq 0 n).

Definition pad (msg : list N) : list N :=
  let len := List.length msg in
  let zeros := ((55 + 64 - len mod 64) mod 64)%nat in
  msg ++ 0x80%N :: repeat 0%N zeros ++ le_bytes 8 (8 * N.of_nat len).

Definition word_at (chunk : list N) (g : nat) : word :=
  (nth (4 * g) chunk 0 + 256 * nth (4 * g + 1) chunk 0
   + 65536 * nth (4 * g + 2) chunk 0 + 16777216 * nth (4 * g + 3) chunk 0)%N.

Definition step (chunk : list N) (st : state) (i : nat) : state :=
  let '(a, b, c, d) := st in
  let '(f, g) :=
    if (i <? 16)%nat then (N.lor (N.land b c) (N.land (not32 b) d), i)
    else if (i <? 32)%nat
    then (N.lor (N.land d b) (N.land (not32 d) c), ((5 * i + 1) mod 16)%nat)
    else if (i <? 48)%nat
    then (N.lxor b (N.lxor c d), ((3 * i + 5) mod 16)%nat)
    else (N.lxor c (N.lor b (not32 d)), ((7 * i) mod 16)%nat) in
  let f' := add32 (add32 (add32 f a) (nth i K 0%N)) (word_at chunk g) in
  (d, add32 b (rotl32 f' (nth i S 0%N)), b, c).

Definition compress (st : state) (chunk : list N) : state :=
  let '(a0, b0, c0, d0) := st in
  let '(a, b, c, d) := fold_left (step chunk) (seq 0 64) st in
  (add32 a0 a, add32 b0 b, add32 c0 c, add32 d0 d).

Fixpoint chunks (n : nat) (bytes : list N) (st : state) : state :=
  match n with
  | O => st
  | Datatypes.S n' => chunks n' (skipn 64 bytes) (compress st (firstn 64 bytes))
  end.

Definition digest (msg : list N) : list N :=
  let p := pad msg in
  let '(a, b, c, d) := chunks (List.length p / 64) p init in
  le_bytes 4 a ++ le_bytes 4 b ++ le_bytes 4 c ++ le_bytes 4 d.

Definition hex_digit (n : N) : N :=
  if (n <? 10)%N then (0x30 + n)%N else (0x61 + (n - 10))%N.

Definition hex_byte (b : N) : JS.str := [hex_digit (b / 16); hex_digit (b mod 16)].

Definition hex (bytes : list N) : JS.str := flat_map hex_byte bytes.

Definition is_hex_digit (u : N) : bool :=
  (((0x30 <=? u) && (u <=? 0x39)) || ((0x61 <=? u) && (u <=? 0x66)))%N.

End MD5.

(** ** The [natural] package: word tokenizer and Porter stemmer

    [natural.WordTokenizer] splits on the pattern
    [/[^A-Za-zА-Яа-я0-9_]+/] and drops empty pieces;
    [natural.PorterStemmer] is M. F. Porter's suffix stripping algorithm
    (Program 14(3), 1980), which is what is written out below. *)

Module Natural.

Definition is_word_unit (u : N) : bool :=
  (((0x41 <=? u) && (u <=? 0x5A)) || ((0x61 <=? u) && (u <=? 0x7A))
   || ((0x410 <=? u) && (u <=? 0x44F)) || ((0x30 <=? u) && (u <=? 0x39))
   || (u =? 0x5F))%N.

Fixpoint split_words (s : JS.str) (cur : JS.str) : list JS.str :=
  match s with
  | [] => match cur with [] => [] | _ => [rev cur] end
  | u :: r =>
    if is_word_unit u then split_words r (u :: cur)
    else match cur with
         | [] => split_words r []
         | _ => rev cur :: split_words r []
         end
  end.

Definition tokenize (s : JS.str) : list JS.str := split_words s [].

(** *** Porter stemmer *)

Definition is_aeiou (u : N) : bool :=
  ((u =? 0x61) || (u =? 0x65) || (u =? 0x69) || (u =? 0x6F) || (u =? 0x75))%N.

(** [true] marks a consonant: a letter other than a, e, i, o, u and other
    than a y preceded by a consonant. *)
Fixpoint consonants_from (prev : bool) (w : JS.str) : list bool :=
  match w with
  | [] => []
  | u :: r =>
    let c := if is_aeiou u then false
             else if (u =? 0x79)%N then negb prev else true in
    c :: consonants_from c r
  end.

Definition consonants (w : JS.str) : list bool := consonants_from false w.

(** The measure m of [C](VC)^m[V]: the number of places where a vowel is
    followed by a consonant. *)
Fixpoint count_vc (fl : list bool) : nat :=
  match fl with
  | [] => O
  | v :: r =>
    match r with
    | c :: _ => if negb v && c then S (count_vc r) else count_vc r
    | [] => O
    end
  end.

Definition measure (w : JS.str) : nat := count_vc (consonants w).

Definition has_vowel (w : JS.str) : bool := existsb negb (consonants w).

Definition ends_double_consonant (w : JS.str) : bool :=
  match rev w, rev (consonants w) with
  | x :: y :: _, c :: _ => (x =? y)%N && c
  | _, _ => false
  end.

(** *o: the stem ends consonant, vowel, consonant, the last one not being
    w, x or y. *)
Definition ends_cvc (w : JS.str) : bool :=
  match rev w, rev (consonants w) with
  | x :: _, c2 :: v :: c1 :: _ =>
    c2 && negb v && c1
    && negb ((x =? 0x77) || (x =? 0x78) || (x =? 0x79))%N
  | _, _ => false
  end.

Fixpoint strip_prefix (p w : JS.str) : option JS.str :=
  match p, w with
  | [], _ => Some w
  | a :: p', b :: w' => if (a =? b)%N then strip_prefix p' w' else None
  | _ :: _, [] => None
  end.

Definition strip_suffix (suf : string) (w : JS.str) : option JS.str :=
  option_map (@rev N) (strip_prefix (rev (JS.lit suf)) (rev w)).

Definition ends_with (suf : string) (w : JS.str) : bool :=
  match strip_suffix suf w with Some _ => true | None => false end.

(** The first rule whose suffix matches decides; the lists below put the
    longer of two overlapping suffixes first. *)
Fixpoint apply_rules (cond : JS.str -> bool) (rules : list (string * string))
    (w : JS.str) : JS.str :=
  match rules with
  | [] => w
  | (suf, rep) :: rest =>
    match strip_suffix suf w with
    | Some stem => if cond stem then stem ++ JS.lit rep else w
    | None => apply_rules cond rest w
    end
  end.

Definition always (_ : JS.str) : bool := true.

Definition step1a : JS.str -> JS.str :=
  apply_rules always
    [("sses", "ss"); ("ies", "i"); ("ss", "ss"); ("s", "")]%string.

Definition step1b_fix (w : JS.str) : JS.str :=
  if ends_with "at" w || ends_with "bl" w || ends_with "iz" w
  then w ++ JS.lit "e"
  else if ends_double_consonant w
          && negb (ends_with "l" w || ends_with "s" w || ends_with "z" w)
  then removelast w
  else if (measure w =? 1)%nat && ends_cvc w then w ++ JS.lit "e"
  else w.

Definition step1b (w : JS.str) : JS.str :=
  match strip_suffix "eed" w with
  | Some stem => if (0 <? measure stem)%nat then stem ++ JS.lit "ee" else w
  | None =>
    match strip_suffix "ed" w with
    | Some stem => if has_vowel stem then step1b_fix stem else w
    | None =>
      match strip_suffix "ing" w with
      | Some stem => if has_vowel stem then step1b_fix stem else w
      | None => w
      end
    end
  end.

Definition step1c : JS.str -> JS.str :=
  apply_rules has_vowel [("y", "i")]%string.

Definition step2 : JS.str -> JS.str :=
  apply_rules (fun stem => (0 <? measure stem)%nat)
    [("ational", "ate"); ("ization", "ize"); ("iveness", "ive");
     ("fulness", "ful"); ("ousness", "ous"); ("tional", "tion");
     ("biliti", "ble"); ("entli", "ent"); ("ousli", "ous"); ("ation", "ate");
     ("alism", "al"); ("aliti", "al"); ("iviti", "ive"); ("enci", "ence");
     ("anci", "ance"); ("izer", "ize"); ("abli", "able"); ("alli", "al");
     ("ator", "ate"); ("eli", "e")]%string.

Definition step3 : JS.str -> JS.str :=
  apply_rules (fun stem => (0 <? measure stem)%nat)
    [("icate", "ic"); ("ative", ""); ("alize", "al"); ("iciti", "ic");
     ("ical", "ic"); ("ness", ""); ("ful", "")]%string.

Definition step4 (w : JS.str) : JS.str :=
  match strip_suffix "ion" w with
  | Some stem =>
    if (1 <? measure stem)%nat && (ends_with "s" stem || ends_with "t" stem)
    then stem else w
  | None =>
    apply_rules (fun stem => (1 <? measure stem)%nat)
      [("ement", ""); ("ance", ""); ("ence", ""); ("able", ""); ("ible", "");
       ("ment", ""); ("ant", ""); ("ent", ""); ("ism", ""); ("ate", "");
       ("iti", ""); ("ous", ""); ("ive", ""); ("ize", ""); ("al", "");
       ("er", ""); ("ic", ""); ("ou", "")]%string w
  end.

Definition step5a (w : JS.str) : JS.str :=
  match strip_suffix "e" w with
  | Some stem =>
    if (1 <? measure stem)%nat then stem
    else if (measure stem =? 1)%nat && negb (ends_cvc stem) then stem
    else w
  | None => w
  end.

Definition step5b (w : JS.str) : JS.str :=
  if (1 <? measure w)%nat && ends_double_consonant w && ends_with "l" w
  then removelast w else w.

Definition stem (token : JS.str) : JS.str :=
  if (List.length token <? 3)%nat then token
  else step5b (step5a (step4 (step3 (step2 (step1c (step1b (step1a
         (JS.toLowerCase token)))))))).

End Natural.

(** ** Clock values

    An instant is a number of milliseconds since the epoch.  [toISOString]
    is [Date.prototype.toISOString]; [CURRENT_TIMESTAMP] is the text SQLite
    stores for the columns that default to it.  Both are written for the
    years 0000 to 9999. *)

Module Clock.

Local Open Scope Z_scope.

Definition instant := Z.

Definition ms_per_day : Z := 86400000.

(** Year, month and day of a day number counted from 1970-01-01. *)
Definition civil_from_days (days : Z) : Z * Z * Z :=
  let z := days + 719468 in
  let era := z / 146097 in
  let doe := z - era * 146097 in
  let yoe := (doe - doe / 1460 + doe / 36524 - doe / 146096) / 365 in
  let doy := doe - (365 * yoe + yoe / 4 - yoe / 100) in
  let mp := (5 * doy + 2) / 153 in
  let d := doy - (153 * mp + 2) / 5 + 1 in
  let m := if mp <? 10 then mp + 3 else mp - 9 in
  let y := yoe + era * 400 in
  (if m <=? 2 then y + 1 else y, m, d).

Definition digit (n : Z) : N := (0x30 + Z.to_N (n mod 10))%N.
Definition digits2 (n : Z) : JS.str := [digit (n / 10); digit n].
Definition digits3 (n : Z) : JS.str := digit (n / 100) :: digits2 n.
Definition digits4 (n : Z) : JS.str := digit (n / 1000) :: digits3 n.

Definition date_text (t : instant) : JS.str :=
  let '(y, m, d) := civil_from_days (t / ms_per_day) in
  digits4 y ++ JS.lit "-" ++ digits2 m ++ JS.lit "-" ++ digits2 d.

Definition time_text (t : instant) : JS.str :=
  let s := (t mod ms_per_day) / 1000 in
  digits2 (s / 3600) ++ JS.lit ":" ++ digits2 (s / 60 mod 60)
    ++ JS.lit ":" ++ digits2 (s mod 60).

Definition toISOString (t : instant) : JS.str :=
  date_text t ++ JS.lit "T" ++ time_text t ++ JS.lit "."
    ++ digits3 (t mod 1000) ++ JS.lit "Z".

Definition CURRENT_TIMESTAMP (t : instant) : JS.str :=
  date_text t ++ JS.lit " " ++ time_text t.

(** [d.setDate(d.getDate() - daysOld)], in a time zone whose offset does
    not change between the two dates. *)
Definition minus_days (t : instant) (daysOld : Z) : instant :=
  t - daysOld * ms_per_day.

End Clock.

(** ** Numbers: IEEE 754 binary64

    The type and the operations are those of [SpecFloat], at precision 53
    and maximal exponent 1024, rounding to nearest, ties to even.  SQLite
    stores no NaN, it turns it into NULL: in a REAL column or expression
    [S754_nan] stands for NULL. *)

Module Double.

Import SpecFloat.

Local Open Scope Z_scope.

Definition t : Type := spec_float.

Definition prec : Z := 53.
Definition emax : Z := 1024.

(** An integer as a double (exact below 2^53). *)
Definition of_Z (z : Z) : t := binary_normalize prec emax z 0 false.

Definition add : t -> t -> t := SFadd prec emax.
Definition sub : t -> t -> t := SFsub prec emax.
Definition mul : t -> t -> t := SFmul prec emax.
Definition div : t -> t -> t := SFdiv prec emax.

Definition zero : t := S754_zero false.           (* 0.0 *)
Definition one : t := of_Z 1.                     (* 1.0 *)

(** The double a decimal literal denotes, the literal given as the
    fraction [n / d] of two integers below 2^53: the double nearest to the
    fraction, which is what the correctly rounded division gives.
    [decimal 1 10] is 0.1 and [decimal 3 10] is 0.3. *)
Definition decimal (n d : Z) : t := div (of_Z n) (of_Z d).

Definition NULL : t := S754_nan.

Definition is_null (x : t) : bool :=
  match x with S754_nan => true | _ => false end.

(** [x <= y] as a condition: not true when one side is NULL (or NaN). *)
Definition leb (x y : t) : bool := SFleb x y.
Definition ltb (x y : t) : bool := SFltb x y.

(** The order of an ORDER BY: the numeric order, NULL before every
    number. *)
Definition compare (x y : t) : comparison :=
  match SFcompare x y with
  | Some c => c
  | None =>
    match x, y with
    | S754_nan, S754_nan => Eq
    | S754_nan, _ => Lt
    | _, _ => Gt
    end
  end.

(** A key of three integers whose lexicographic order is [compare]; it
    serves the proofs about the order. *)
Definition key (x : t) : Z * Z * Z :=
  match x with
  | S754_nan => (-3, 0, 0)
  | S754_infinity true => (-2, 0, 0)
  | S754_finite true m e => (-1, - e, Zneg m)
  | S754_zero _ => (0, 0, 0)
  | S754_finite false m e => (1, e, Zpos m)
  | S754_infinity false => (2, 0, 0)
  end.


End Double.

(** ** The store: the tables of schema.sql *)

(** Table [conversations]. *)
Record conversation := mkConversation {
  id : JS.str;                    (* TEXT PRIMARY KEY *)
  user_query : JS.str;
  ai_response : JS.str;
  created_at : JS.str;            (* DEFAULT CURRENT_TIMESTAMP *)
  updated_at : JS.str;            (* DEFAULT CURRENT_TIMESTAMP *)
  query_hash : JS.str;            (* NOT NULL UNIQUE *)
  similarity_score : Double.t;    (* REAL DEFAULT 0.0 *)
  usage_count : Z;                (* DEFAULT 1 *)
  user_id : option JS.str;
  session_id : option JS.str;
  metadata : JS.str
}.

(** Table [query_keywords]. *)
Record keyword_row := mkKeyword {
  k_id : Z;                       (* INTEGER PRIMARY KEY AUTOINCREMENT *)
  conversation_id : JS.str;
  keyword : JS.str;
  weight : Double.t               (* REAL DEFAULT 1.0 *)
}.

(** Table [usage_stats]. *)
Record usage_row := mkUsage {
  u_id : Z;                       (* INTEGER PRIMARY KEY AUTOINCREMENT *)
  u_conversation_id : JS.str;
  accessed_at : JS.str;           (* DEFAULT CURRENT_TIMESTAMP *)
  u_user_id : option JS.str;
  u_session_id : option JS.str
}.

Record tables := mkTables {
  conversations : list conversation;
  query_keywords : list keyword_row;
  usage_stats : list usage_row;
  keyword_seq : Z;                (* sqlite_sequence of query_keywords *)
  usage_seq : Z                   (* sqlite_sequence of usage_stats *)
}.

(** A connection: the tables as the connection sees them, the tables as
    they were when the open transaction began, and the foreign_keys
    pragma (which decides whether ON DELETE CASCADE is enforced). *)
Record database := mkDatabase {
  live : tables;
  journal : option tables;
  foreign_keys : bool
}.

Definition sqlite_error := Z.
Definition SQLITE_CONSTRAINT : sqlite_error := 19%Z.

Inductive outcome (A : Type) : Type :=
| Resolved (value : A)
| Rejected (err : sqlite_error).

Arguments Resolved {A} value.
Arguments Rejected {A} err.

(** A promise as the caller that awaits it finds it: settled, or pending
    for ever because the callback that had to settle it threw before it
    called [resolve] or [reject]. *)
Inductive promise (A : Type) : Type :=
| Settled (o : outcome A)
| Pending.

Arguments Settled {A} o.
Arguments Pending {A}.

Module Store.

Local Open Scope Z_scope.

Definition empty_tables : tables := mkTables [] [] [] 0 0.

Definition open (fk : bool) : database := mkDatabase empty_tables None fk.

Definition with_live (db : database) (t : tables) : database :=
  mkDatabase t (journal db) (foreign_keys db).

(** BEGIN TRANSACTION; inside a transaction the statement fails and
    changes nothing.  [journal] keeps the tables as they were committed:
    what the connection falls back to if the transaction never commits. *)
Definition begin_transaction (db : database) : database :=
  match journal db with
  | None => mkDatabase (live db) (Some (live db)) (foreign_keys db)
  | Some _ => db
  end.

Definition has_conversation (cid : JS.str) (cs : list conversation) : bool :=
  existsb (fun c => JS.str_eqb (id c) cid) cs.

(** Removal of the conversations chosen by [doomed]; with foreign keys on,
    the rows of the two child tables that refer to them go as well. *)
Definition delete_conversations (fk : bool) (doomed : conversation -> bool)
    (t : tables) : tables :=
  let gone := filter doomed (conversations t) in
  let cascades (cid : JS.str) := fk && has_conversation cid gone in
  mkTables
    (filter (fun c => negb (doomed c)) (conversations t))
    (filter (fun k => negb (cascades (conversation_id k))) (query_keywords t))
    (filter (fun u => negb (cascades (u_conversation_id u))) (usage_stats t))
    (keyword_seq t) (usage_seq t).

(** INSERT OR REPLACE INTO conversations: the rows that hold the new
    primary key or the new query_hash are removed first. *)
Definition conflicts (c c0 : conversation) : bool :=
  JS.str_eqb (id c0) (id c) || JS.str_eqb (query_hash c0) (query_hash c).

Definition insert_or_replace (fk : bool) (c : conversation) (t : tables)
    : tables :=
  let t' := delete_conversations fk (conflicts c) t in
  mkTables (conversations t' ++ [c]) (query_keywords t') (usage_stats t')
    (keyword_seq t') (usage_seq t').

(** INSERT INTO usage_stats (conversation_id). *)
Definition insert_usage (fk : bool) (now : Clock.instant) (cid : JS.str)
    (t : tables) : sqlite_error + tables :=
  if fk && negb (has_conversation cid (conversations t))
  then inl SQLITE_CONSTRAINT
  else inr (mkTables (conversations t) (query_keywords t)
              (usage_stats t ++ [mkUsage (usage_seq t + 1) cid
                                   (Clock.CURRENT_TIMESTAMP now) None None])
              (keyword_seq t) (usage_seq t + 1)).

(** UPDATE conversations SET usage_count = usage_count + 1 WHERE id = ?,
    followed by the trigger update_conversations_timestamp. *)
Definition bump (now : Clock.instant) (cid : JS.str) (c : conversation)
    : conversation :=
  if JS.str_eqb (id c) cid
  then mkConversation (id c) (user_query c) (ai_response c) (created_at c)
         (Clock.CURRENT_TIMESTAMP now) (query_hash c) (similarity_score c)
         (usage_count c + 1) (user_id c) (session_id c) (metadata c)
  else c.

Definition increment_usage (now : Clock.instant) (cid : JS.str) (t : tables)
    : tables :=
  mkTables (map (bump now cid) (conversations t)) (query_keywords t)
    (usage_stats t) (keyword_seq t) (usage_seq t).

(** One statement on the connection.  [fault] is the failure the run time
    injects, if any; a failed statement leaves the tables as they were. *)
Definition run (fault : option sqlite_error)
    (stmt : bool -> tables -> sqlite_error + tables) (db : database)
    : database * option sqlite_error :=
  match fault with
  | Some err => (db, Some err)
  | None =>
    match stmt (foreign_keys db) (live db) with
    | inr t => (with_live db t, None)
    | inl err => (db, Some err)
    end
  end.

End Store.

(** ** class DatabaseManager *)

Module DatabaseManager.

Import Store.

(** [generateQueryHash(query)] *)
Definition generateQueryHash (query : JS.str) : JS.str :=
  let normalizedQuery := JS.trim (JS.toLowerCase query) in
  MD5.hex (MD5.digest (JS.utf8_encode normalizedQuery)).

Definition stopWords : list JS.str :=
  map JS.lit
    [ "и"; "в"; "на"; "с"; "по"; "для"; "от"; "до"; "как"; "что"; "это";
      "или"; "но"; "а"; "же"; "уже"; "еще"; "только"; "даже"; "может";
      "быть"; "все"; "всего"; "при"; "через"; "над"; "под"; "без"; "из";
      "к"; "о"; "об"; "про"; "за"; "перед"; "после"; "между";
      "среди" ]%string.

Definition has (set : list JS.str) (word : JS.str) : bool :=
  existsb (JS.str_eqb word) set.

(** [extractKeywords(text)] *)
Definition extractKeywords (text : JS.str) : list JS.str :=
  let words := Natural.tokenize (JS.toLowerCase text) in
  filter (fun word => (2 <? List.length word)%nat)
    (map Natural.stem
       (filter (fun word => (2 <? List.length word)%nat
                            && negb (has stopWords word))
          words)).

(** The weight of the keyword at position [index], line 103:
    [1.0 - (index * 0.1)]. *)
Definition keyword_weight (index : nat) : Double.t :=
  Double.sub Double.one
    (Double.mul (Double.of_Z (Z.of_nat index)) (Double.decimal 1 10)).

(** [saveConversation(userQuery, aiResponse, userId, sessionId, metadata)].
    [uuid] is the value of [require('uuid').v4()], [now] the instant of the
    call, [metadata] the text [JSON.stringify(metadata)] and [insert_fault]
    the failure of the INSERT OR REPLACE, if the run time makes it fail.

    BEGIN TRANSACTION and the INSERT OR REPLACE are issued on [this.db]
    with [this] the manager.  The callback of the INSERT OR REPLACE is a
    [function]: in it [this] is the statement, [this.db] is undefined, and
    each of its three paths stops at its first [this.db.run]: the ROLLBACK
    of line 80, the COMMIT of line 95, the keyword INSERT of line 104 for
    the first keyword.  Neither [resolve] nor [reject] is reached, and the
    transaction stays open.  What the run time does with the TypeError is
    not in the sources; the model follows the connection for as long as
    the process goes on serving. *)
Definition saveConversation (uuid : JS.str) (now : Clock.instant)
    (insert_fault : option sqlite_error) (userQuery aiResponse : JS.str)
    (userId sessionId : option JS.str) (metadata : JS.str) (db : database)
    : database * promise JS.str :=
  let queryHash := generateQueryHash userQuery in
  let conversationId := uuid in
  let keywords := extractKeywords userQuery in
  let db := begin_transaction db in
  let row :=
    mkConversation conversationId userQuery aiResponse
      (Clock.CURRENT_TIMESTAMP now) (Clock.CURRENT_TIMESTAMP now) queryHash
      Double.zero 1%Z userId sessionId metadata in
  match run insert_fault (fun fk t => inr (insert_or_replace fk row t)) db with
  | (db, Some err) =>
    (db, Pending)                 (* this.db.run('ROLLBACK') throws *)
  | (db, None) =>
    match keywords with
    | [] =>
      (db, Pending)               (* this.db.run('COMMIT', ...) throws *)
    | keyword :: _ =>
      let weight := keyword_weight 0 in
      (db, Pending)               (* this.db.run(insertKeyword, ...) throws *)
    end
  end.

(** [updateUsageCount(conversationId)]: both statements are best effort,
    their errors are logged only. *)
Definition updateUsageCount (now : Clock.instant)
    (update_fault insert_fault : option sqlite_error)
    (conversationId : JS.str) (db : database) : database :=
  let '(db, _) :=
    run update_fault (fun _ t => inr (increment_usage now conversationId t)) db in
  let '(db, _) :=
    run insert_fault (fun fk => insert_usage fk now conversationId) db in
  db.

(** *** The ranking query of [findSimilarConversations] *)

Record ranked := mkRanked {
  r_conv : conversation;          (* c.* *)
  total_weight : Double.t;        (* SUM(k.weight) *)
  keyword_matches : Z;            (* COUNT(k.keyword) *)
  similarity : Double.t           (* SUM(k.weight) / queryKeywords.length *)
}.

(** FROM conversations c JOIN query_keywords k ON c.id = k.conversation_id
    WHERE k.keyword IN (queryKeywords) *)
Definition joined (queryKeywords : list JS.str) (t : tables)
    : list (conversation * keyword_row) :=
  flat_map
    (fun c =>
       map (pair c)
         (filter (fun k => JS.str_eqb (id c) (conversation_id k)
                           && has queryKeywords (keyword k))
            (query_keywords t)))
    (conversations t).

(** GROUP BY c.id: the joined rows of each conversation, in the order of
    the join. *)
Fixpoint add_to_group (c : conversation) (k : keyword_row)
    (groups : list (conversation * list keyword_row))
    : list (conversation * list keyword_row) :=
  match groups with
  | [] => [(c, [k])]
  | (c0, ks) :: rest =>
    if JS.str_eqb (id c0) (id c)
    then (c0, ks ++ [k]) :: rest
    else (c0, ks) :: add_to_group c k rest
  end.

Definition group_by_id (rows : list (conversation * keyword_row))
    : list (conversation * list keyword_row) :=
  fold_left (fun groups r => add_to_group (fst r) (snd r) groups) rows [].

(** SUM over REAL values: NULLs are skipped, the others are added to 0.0
    one after the other in the order of the rows, each addition rounded;
    the sum of no value is NULL. *)
Definition SUM (xs : list Double.t) : Double.t :=
  match filter (fun x => negb (Double.is_null x)) xs with
  | [] => Double.NULL
  | y :: ys => fold_left Double.add (y :: ys) Double.zero
  end.

(** The result columns of a group; [m] is [queryKeywords.length], written
    into the statement as an integer. *)
Definition select (m : nat) (g : conversation * list keyword_row) : ranked :=
  let '(c, ks) := g in
  let total := SUM (map weight ks) in
  mkRanked c total (Z.of_nat (List.length ks))
    (Double.div total (Double.of_Z (Z.of_nat m))).

(** ORDER BY similarity DESC, c.usage_count DESC: [outranks a b] when [a]
    has to come before [b]. *)
Definition outranks (a b : ranked) : bool :=
  match Double.compare (similarity a) (similarity b) with
  | Gt => true
  | Eq => (usage_count (r_conv b) <? usage_count (r_conv a))%Z
  | Lt => false
  end.

Fixpoint insert_ranked (a : ranked) (l : list ranked) : list ranked :=
  match l with
  | [] => [a]
  | b :: l' => if outranks b a then b :: insert_ranked a l' else a :: l
  end.

Definition order_by (l : list ranked) : list ranked :=
  fold_right insert_ranked [] l.

(** LIMIT ?: a negative bound is no bound. *)
Definition limit_rows (limit : Z) (l : list ranked) : list ranked :=
  if (limit <? 0)%Z then l else firstn (Z.to_nat limit) l.

(** HAVING similarity >= ? keeps the groups for which the comparison is
    true; it is not when the similarity or the bound is NULL. *)
Definition similar_query (queryKeywords : list JS.str)
    (minSimilarity : Double.t) (limit : Z) (t : tables) : list ranked :=
  let m := List.length queryKeywords in
  let groups := map (select m) (group_by_id (joined queryKeywords t)) in
  let kept := filter (fun g => Double.leb minSimilarity (similarity g)) groups in
  limit_rows limit (order_by kept).

(** *** [findSimilarConversations] *)

Inductive match_type := exact | similar.

(** An element of the resolved array: the row, then [similarity] and
    [matchType]; the two aggregates exist on similar matches only. *)
Record match_row := mkMatch {
  row : conversation;
  m_total_weight : option Double.t;
  m_keyword_matches : option Z;
  m_similarity : Double.t;
  matchType : match_type
}.

Record find_faults := mkFindFaults {
  get_fault : option sqlite_error;             (* the lookup by query_hash *)
  all_fault : option sqlite_error;             (* the ranking query *)
  hit_faults : JS.str -> option sqlite_error * option sqlite_error
}.

Definition no_find_faults : find_faults :=
  mkFindFaults None None (fun _ => (None, None)).

Definition record_hit (now : Clock.instant) (faults : find_faults)
    (db : database) (conversationId : JS.str) : database :=
  updateUsageCount now (fst (hit_faults faults conversationId))
    (snd (hit_faults faults conversationId)) conversationId db.

Definition default {A : Type} (d : A) (arg : option A) : A :=
  match arg with Some a => a | None => d end.

(** [findSimilarConversations(query, limit = 5, minSimilarity = 0.3)];
    [None] is an argument left out. *)
Definition findSimilarConversations (now : Clock.instant)
    (faults : find_faults) (query : JS.str) (limit : option Z)
    (minSimilarity : option Double.t) (db : database)
    : database * outcome (list match_row) :=
  let limit := default 5%Z limit in
  let minSimilarity := default (Double.decimal 3 10) minSimilarity in
  let queryKeywords := extractKeywords query in
  let queryHash := generateQueryHash query in
  match get_fault faults with
  | Some err => (db, Rejected err)
  | None =>
    match find (fun c => JS.str_eqb (query_hash c) queryHash)
               (conversations (live db)) with
    | Some exactMatch =>
      (record_hit now faults db (id exactMatch),
       Resolved [mkMatch exactMatch None None Double.one exact])
    | None =>
      match queryKeywords with
      | [] => (db, Resolved [])
      | _ :: _ =>
        match all_fault faults with
        | Some err => (db, Rejected err)
        | None =>
          let rows := similar_query queryKeywords minSimilarity limit (live db) in
          (fold_left (record_hit now faults) (map (fun r => id (r_conv r)) rows) db,
           Resolved
             (map (fun r => mkMatch (r_conv r) (Some (total_weight r))
                              (Some (keyword_matches r)) (similarity r) similar)
                  rows))
        end
      end
    end
  end.

(** [cleanupOldRecords(daysOld = 30)]: the cutoff is sent as ISO text and
    compared with the stored [created_at] text. *)
Definition cleanupOldRecords (now : Clock.instant)
    (fault : option sqlite_error) (daysOld : option Z) (db : database)
    : database * outcome Z :=
  let daysOld := default 30%Z daysOld in
  let cutoffDate := Clock.minus_days now daysOld in
  let cutoff := Clock.toISOString cutoffDate in
  let doomed (c : conversation) :=
    JS.ltb (created_at c) cutoff && (usage_count c <? 2)%Z in
  match fault with
  | Some err => (db, Rejected err)
  | None =>
    (with_live db (delete_conversations (foreign_keys db) doomed (live db)),
     Resolved (Z.of_nat (List.length (filter doomed (conversations (live db))))))
  end.

(** *** [getCacheStats] *)

Record cache_stats := mkStats {
  totalConversations : Z;
  totalKeywords : Z;
  totalAccesses : Z;
  avgUsage : Q;
  maxUsage : option Z             (* null on an empty table *)
}.

(** [Math.round]: the nearest integer, halves going up. *)
Definition Math_round (x : Q) : Z := Qfloor (x + (1 # 2)).

(** AVG(usage_count) and MAX(usage_count); both are NULL on an empty
    table. *)
Definition AVG (xs : list Z) : option Q :=
  match xs with
  | [] => None
  | _ :: _ =>
    Some (inject_Z (fold_right Z.add 0%Z xs)
          / inject_Z (Z.of_nat (List.length xs)))
  end.

Definition MAX (xs : list Z) : option Z :=
  match xs with
  | [] => None
  | x :: rest => Some (fold_left Z.max rest x)
  end.

(** The first of the five statements, in the order of the [queries]
    array, that is made to fail. *)
Definition first_fault (faults : nat -> option sqlite_error)
    : option sqlite_error :=
  fold_right
    (fun i later => match faults i with Some err => Some err | None => later end)
    None (seq 0 5).

(** [getCacheStats()].  The five statements only read; [Promise.all]
    rejects with the failure of the first statement that fails.  A NULL
    average is multiplied as 0. *)
Definition getCacheStats (faults : nat -> option sqlite_error)
    (db : database) : outcome cache_stats :=
  match first_fault faults with
  | Some err => Rejected err
  | None =>
    let counts := map usage_count (conversations (live db)) in
    let results3 := match AVG counts with Some a => a | None => 0 end in
    Resolved
      (mkStats (Z.of_nat (List.length (conversations (live db))))
         (Z.of_nat (List.length (query_keywords (live db))))
         (Z.of_nat (List.length (usage_stats (live db))))
         (inject_Z (Math_round (results3 * 100)) / 100)
         (MAX counts))
  end.

End DatabaseManager.

(** ** The routes of server.js that go through the manager

    Modelled: POST /api/cache/query, POST /api/cache/save,
    DELETE /api/cache/conversation/:id and GET /api/cache/conversation/:id.
    A handler takes the fields of the request it reads and gives the store
    it leaves and the reply it sends. *)

Module Server.

Import Store DatabaseManager.






Inductive delete_reply :=
| delete_ok (deletedCount : Z) (message : JS.str)
| delete_500 (details : sqlite_error).

(** app.delete('/api/cache/conversation/:id'): the statement is run on the
    connection directly; [this.changes] counts the conversations removed. *)
Definition delete_conversation (fault : option sqlite_error) (cid : JS.str)
    (db : database) : database * delete_reply :=
  match fault with
  | Some err => (db, delete_500 err)
  | None =>
    let target (c : conversation) := JS.str_eqb (id c) cid in
    let changes :=
      Z.of_nat (List.length (filter target (conversations (live db)))) in
    (with_live db (delete_conversations (foreign_keys db) target (live db)),
     delete_ok changes
       (if (0 <? changes)%Z then JS.lit "Разговор удален"
        else JS.lit "Разговор не найден"))
  end.

Inductive detail_reply :=
| detail_404
| detail_ok (conversation : conversation) (metadata : JS.str)
    (keywords : list (JS.str * Double.t))              (* { word, weight } *)
| detail_500 (details : sqlite_error).

(** app.get('/api/cache/conversation/:id').  A failure of the second
    statement is logged and gives no keywords.  [metadata] is the JSON
    text of the object sent: the stored text, "{}" when it is empty. *)
Definition get_conversation (get_fault all_fault : option sqlite_error)
    (cid : JS.str) (db : database) : detail_reply :=
  match get_fault with
  | Some err => detail_500 err
  | None =>
    match find (fun c => JS.str_eqb (id c) cid) (conversations (live db)) with
    | None => detail_404
    | Some conversation =>
      let keywords :=
        match all_fault with
        | Some _ => []
        | None =>
          filter (fun k => JS.str_eqb (conversation_id k) cid)
            (query_keywords (live db))
        end in
      detail_ok conversation
        (match metadata conversation with
         | [] => JS.lit "{}"
         | _ :: _ => metadata conversation
         end)
        (map (fun k => (keyword k, weight k)) keywords)
    end
  end.

End Server.

(** ** Notions used to state the properties *)

Import Store DatabaseManager.

(** *** Keywords *)

(** [ws.join(' ')]: the text made of the keywords, one space between
    two. *)
Fixpoint join_words (ws : list JS.str) : JS.str :=
  match ws with
  | [] => []
  | w :: rest =>
    match rest with
    | [] => w
    | _ :: _ => w ++ 0x20%N :: join_words rest
    end
  end.

(** Running the extraction again on the keywords it produced. *)
Definition re_extract (x : JS.str) : list JS.str :=
  extractKeywords (join_words (extractKeywords x)).


(** *** Saves and the states they reach *)

(** The row [saveConversation] writes. *)
Definition saved_row (uuid : JS.str) (now : Clock.instant)
    (userQuery aiResponse : JS.str) (userId sessionId : option JS.str)
    (metadata : JS.str) : conversation :=
  mkConversation uuid userQuery aiResponse (Clock.CURRENT_TIMESTAMP now)
    (Clock.CURRENT_TIMESTAMP now) (generateQueryHash userQuery) Double.zero 1%Z
    userId sessionId metadata.

(** The PRIMARY KEY and UNIQUE constraints of table [conversations]. *)
Definition unique_keys (t : tables) : Prop :=
  NoDup (map id (conversations t))
  /\ NoDup (map query_hash (conversations t)).

(** A connection whose tables, and whose tables to roll back to, satisfy
    the constraints. *)
Definition consistent (db : database) : Prop :=
  unique_keys (live db)
  /\ forall t, journal db = Some t -> unique_keys t.

(** The tables a connection has committed: inside a transaction the
    tables it falls back to, outside a transaction its tables. *)
Definition committed (db : database) : tables :=
  match journal db with Some t => t | None => live db end.

(** The states of a connection that starts empty and sees only
    [saveConversation] calls, with any arguments and any faults. *)
Inductive saved_only (fk : bool) : database -> Prop :=
| saved_none : saved_only fk (Store.open fk)
| saved_more : forall db uuid now insert_fault userQuery aiResponse userId
                      sessionId metadata,
    saved_only fk db ->
    saved_only fk
      (fst (saveConversation uuid now insert_fault userQuery aiResponse
              userId sessionId metadata db)).

(** The states of a connection that starts empty and is used through the
    manager only: saves, searches and cleanups, with any arguments and any
    faults. *)
Inductive reachable (fk : bool) : database -> Prop :=
| reach_open : reachable fk (Store.open fk)
| reach_save : forall db uuid now insert_fault userQuery aiResponse userId
                      sessionId metadata,
    reachable fk db ->
    reachable fk
      (fst (saveConversation uuid now insert_fault userQuery aiResponse
              userId sessionId metadata db))
| reach_find : forall db now faults query limit minSimilarity,
    reachable fk db ->
    reachable fk
      (fst (findSimilarConversations now faults query limit minSimilarity db))
| reach_cleanup : forall db now fault daysOld,
    reachable fk db ->
    reachable fk (fst (cleanupOldRecords now fault daysOld db)).

(** *** Ranking *)

(** The keyword entries of conversation [c] whose keyword is in [K]. *)
Definition matching_entries (K : list JS.str) (t : tables) (c : conversation)
    : list keyword_row :=
  filter (fun k => JS.str_eqb (id c) (conversation_id k) && has K (keyword k))
    (query_keywords t).

(** The score of conversation [c] for the keywords [K]: the sum of the
    weights of its matching entries, in table order, divided by the number
    of keywords, in doubles as the statement computes it. *)
Definition score (K : list JS.str) (t : tables) (c : conversation)
    : Double.t :=
  Double.div (SUM (map weight (matching_entries K t c)))
    (Double.of_Z (Z.of_nat (List.length K))).

(** The row of the ranking query for conversation [c], in terms of its
    matching entries. *)
Definition rank_of (K : list JS.str) (t : tables) (c : conversation) : ranked :=
  mkRanked c (SUM (map weight (matching_entries K t c)))
    (Z.of_nat (List.length (matching_entries K t c))) (score K t c).

Definition has_match (K : list JS.str) (t : tables) (c : conversation) : bool :=
  match matching_entries K t c with [] => false | _ :: _ => true end.

(** The conversations a similar-match search has to return, in table
    order: at least one matching entry, and a score of at least [tau]. *)
Definition candidates (K : list JS.str) (tau : Double.t) (t : tables)
    : list conversation :=
  filter (fun c => Double.leb tau (score K t c))
    (filter (has_match K t) (conversations t)).

(** The key of a group of the ranking query. *)
Definition group_id (g : conversation * list keyword_row) : JS.str :=
  id (fst g).

(** The group of one conversation, from its matching entries. *)
Definition group_of (K : list JS.str) (t : tables) (c : conversation)
    : list (conversation * list keyword_row) :=
  if has_match K t c then [(c, matching_entries K t c)] else [].



(** *** Retention *)

(** Purge as the specification words it: the conversations older than the
    cutoff whose usage count is below a threshold given by the caller. *)
Definition Purge (now : Clock.instant) (maxAgeDays minUsageThreshold : Z)
    (db : database) : database * Z :=
  let cutoff := Clock.toISOString (Clock.minus_days now maxAgeDays) in
  let evicted (c : conversation) :=
    JS.ltb (created_at c) cutoff && (usage_count c <? minUsageThreshold)%Z in
  (with_live db (delete_conversations (foreign_keys db) evicted (live db)),
   Z.of_nat (List.length (filter evicted (conversations (live db))))).

(** The day of a timestamp text: its first ten characters, YYYY-MM-DD, in
    [created_at] as in the ISO cutoff. *)
Definition date_part (text : JS.str) : JS.str := firstn 10 text.

(** *** Sample values *)

Definition noon : Clock.instant := 1793620800000%Z.   (* 2026-11-02T12:00:00Z *)

Definition day (n : Z) : Z := (n * Clock.ms_per_day)%Z.

Definition save_at (t : Clock.instant) (uuid query response : string)
    (insert_fault : option sqlite_error) (db : database)
    : database * promise JS.str :=
  saveConversation (JS.lit uuid) t insert_fault (JS.lit query)
    (JS.lit response) None None (JS.lit "{}") db.

(** The connection after [Save("what is rust", "a language")]. *)
Definition rust_saved : database :=
  fst (save_at noon "id-1" "what is rust" "a language" None
         (Store.open true)).

(** The second save of the same question, a second later. *)
Definition rust_saved_again : database * promise JS.str :=
  save_at (noon + 1000)%Z "id-2" "What is Rust" "a systems language" None
    rust_saved.

(** A conversation saved forty days before [noon] and never looked up
    since (usage_count 1), and the same after four exact hits
    (usage_count 5). *)
Definition forty_days_ago : Clock.instant := (noon - day 40)%Z.

Definition old_unused : database :=
  fst (save_at forty_days_ago "id-1" "what is rust" "a language" None
         (Store.open true)).

Definition hit (db : database) : database :=
  fst (findSimilarConversations forty_days_ago no_find_faults
         (JS.lit "what is rust") None None db).

Definition old_popular : database := hit (hit (hit (hit old_unused))).

(** A conversation saved at 18:00 on the day whose noon is the cutoff of
    [cleanupOldRecords(30)] run at [noon]: it is 29 days and 18 hours
    old. *)
Definition evening_of_cutoff_day : database :=
  fst (save_at (noon - day 30 + 6 * 3600000)%Z "id-1" "what is rust"
         "a language" None (Store.open true)).

(** [n] lookups of [query], each an exact hit when [query] is stored. *)
Fixpoint hits (n : nat) (query : string) (db : database) : database :=
  match n with
  | O => db
  | S n' =>
    hits n' query
      (fst (findSimilarConversations noon no_find_faults (JS.lit query) None
              None db))
  end.

(** Tables with a keyword index.  No call of the manager writes a keyword
    entry; the samples below stand for a database file whose index was
    filled by other means, with the entries [saveConversation] computes:
    one per keyword of the query, weighted by position. *)
Fixpoint index_rows (cid : JS.str) (index : nat) (seq : Z)
    (keywords : list JS.str) : list keyword_row :=
  match keywords with
  | [] => []
  | kw :: rest =>
    mkKeyword (seq + 1) cid kw (keyword_weight index)
      :: index_rows cid (S index) (seq + 1)%Z rest
  end.

Definition indexed_at (created : Clock.instant)
    (uuid query response : string) (usage : Z) (t : tables) : tables :=
  let keywords := extractKeywords (JS.lit query) in
  mkTables
    (conversations t
     ++ [mkConversation (JS.lit uuid) (JS.lit query) (JS.lit response)
           (Clock.CURRENT_TIMESTAMP created) (Clock.CURRENT_TIMESTAMP created)
           (generateQueryHash (JS.lit query)) Double.zero usage None None
           (JS.lit "{}")])
    (query_keywords t ++ index_rows (JS.lit uuid) 0 (keyword_seq t) keywords)
    (usage_stats t)
    (keyword_seq t + Z.of_nat (List.length keywords))%Z
    (usage_seq t).

Definition indexed : string -> string -> string -> Z -> tables -> tables :=
  indexed_at noon.

(** Two conversations that share the keyword "alpha" at position 0; the
    first has been used 3 times, the second 7 times. *)
Definition two_greek : database :=
  mkDatabase
    (indexed "id-2" "alpha gamma" "second" 7
       (indexed "id-1" "alpha beta" "first" 3 empty_tables))
    None false.


(** The conversation of "alpha beta gamma", indexed. *)
Definition greek_indexed : database :=
  mkDatabase (indexed "id-1" "alpha beta gamma" "an answer" 1 empty_tables)
    None false.

(** A conversation of eight keywords, indexed. *)
Definition eight_words : string :=
  "alpha beta gamma delta epsilon zeta eta theta".

Definition eight_indexed : database :=
  mkDatabase (indexed "id-1" eight_words "an answer" 1 empty_tables) None
    false.

(** The conversation of "rust lang", forty days old and never looked up,
    indexed, on a connection that enforces foreign keys. *)
Definition old_indexed : database :=
  mkDatabase
    (indexed_at forty_days_ago "id-1" "rust lang" "an answer" 1 empty_tables)
    None true.

(** A second question saved on the connection of [old_popular], whose
    conversation has been used five times. *)
Definition two_saved : database :=
  fst (save_at noon "id-2" "what is go" "another language" None old_popular).

(** *** Further notions: invariants of the store *)

(** A property of the tables that holds of the tables a connection shows
    and of the tables it would roll back to. *)
Definition upholds (P : tables -> Prop) (db : database) : Prop :=
  P (live db) /\ forall t, journal db = Some t -> P t.

(** Every usage counter is at least 1. *)
Definition usage_positive (t : tables) : Prop :=
  forall c, In c (conversations t) -> (1 <= usage_count c)%Z.

(** Every keyword entry and every usage record refers to a stored
    conversation. *)
Definition no_orphans (t : tables) : Prop :=
  (forall k, In k (query_keywords t) ->
             has_conversation (conversation_id k) (conversations t) = true)
  /\ (forall u, In u (usage_stats t) ->
                has_conversation (u_conversation_id u) (conversations t) = true).

(** What a search must leave alone in a conversation: everything but the
    usage counter and [updated_at]. *)
Definition content (c : conversation)
    : JS.str * JS.str * JS.str * JS.str * JS.str * Double.t * option JS.str
      * option JS.str * JS.str :=
  (id c, user_query c, ai_response c, created_at c, query_hash c,
   similarity_score c, user_id c, session_id c, metadata c).

(** The ids of the conversations a search resolved with, in order. *)
Definition returned_ids (result : outcome (list match_row)) : list JS.str :=
  match result with
  | Resolved rows => map (fun r => id (row r)) rows
  | Rejected _ => []
  end.

(** The usage records one hit per id of [ids] appends, numbered from the
    sequence value [seq]. *)
Fixpoint hit_records (now : Clock.instant) (seq : Z) (ids : list JS.str)
    : list usage_row :=
  match ids with
  | [] => []
  | cid :: rest =>
    mkUsage (seq + 1) cid (Clock.CURRENT_TIMESTAMP now) None None
      :: hit_records now (seq + 1)%Z rest
  end.

(** A conversation after the hits on [ids]: counted once if its id is
    among them. *)
Definition after_hits (now : Clock.instant) (ids : list JS.str)
    (c : conversation) : conversation :=
  if has ids (id c) then bump now (id c) c else c.

(** What a search may change: the usage counters (upwards), [updated_at]
    and the usage records. *)
Definition only_counted (db db' : database) : Prop :=
  Forall2 (fun c c' => content c' = content c
                       /\ (usage_count c <= usage_count c')%Z)
    (conversations (live db)) (conversations (live db'))
  /\ query_keywords (live db') = query_keywords (live db)
  /\ journal db' = journal db.

(** The condition of the DELETE of [cleanupOldRecords(daysOld)] run at
    [now]. *)
Definition stale (now : Clock.instant) (daysOld : option Z) (c : conversation)
    : bool :=
  JS.ltb (created_at c)
    (Clock.toISOString (Clock.minus_days now (default 30%Z daysOld)))
  && (usage_count c <? 2)%Z.


(** * Properties *)

(** ** Strings, fingerprints and keywords *)

Lemma str_eqb_eq (a b : JS.str) : JS.str_eqb a b = true <-> a = b.
Proof.
  unfold JS.str_eqb. destruct (list_eq_dec N.eq_dec a b); split;
    intros; congruence.
Qed.

Lemma str_eqb_refl (a : JS.str) : JS.str_eqb a a = true.
Proof. now apply str_eqb_eq. Qed.

Lemma str_eqb_neq (a b : JS.str) : JS.str_eqb a b = false <-> a <> b.
Proof.
  unfold JS.str_eqb. destruct (list_eq_dec N.eq_dec a b); split;
    intros; congruence.
Qed.

Lemma str_eqb_sym (a b : JS.str) : JS.str_eqb a b = JS.str_eqb b a.
Proof.
  destruct (JS.str_eqb b a) eqn:E.
  - apply str_eqb_eq. symmetry. now apply str_eqb_eq.
  - apply str_eqb_neq. intro H. apply str_eqb_neq in E. congruence.
Qed.

Example md5_empty :
  MD5.hex (MD5.digest []) = JS.lit "d41d8cd98f00b204e9800998ecf8427e".
Proof. vm_compute. reflexivity. Qed.

Example md5_hello :
  MD5.hex (MD5.digest (JS.utf8_encode (JS.lit "hello world")))
  = JS.lit "5eb63bbbe01eeed093cb22bb8f5acdc3".
Proof. vm_compute. reflexivity. Qed.

Lemma hex_digit_ok (n : N) :
  (n < 16)%N -> MD5.is_hex_digit (MD5.hex_digit n) = true.
Proof.
  intros Hn. unfold MD5.is_hex_digit, MD5.hex_digit.
  destruct (N.ltb_spec n 10); apply orb_true_iff; [left | right];
    apply andb_true_iff; split; apply N.leb_le; lia.
Qed.

Lemma hex_of_bytes (g : nat -> N) (l : list nat) :
  List.length (MD5.hex (map (fun i => (g i mod 256)%N) l))
    = (2 * List.length l)%nat
  /\ forallb MD5.is_hex_digit (MD5.hex (map (fun i => (g i mod 256)%N) l))
     = true.
Proof.
  induction l as [|i l [IHlen IHhex]]; [split; reflexivity|].
  assert (Hb : (g i mod 256 < 256)%N) by (apply N.mod_lt; discriminate).
  split.
  - cbn [map MD5.hex flat_map MD5.hex_byte List.length app].
    change (flat_map MD5.hex_byte) with MD5.hex. rewrite IHlen. lia.
  - cbn [map MD5.hex flat_map MD5.hex_byte app forallb].
    change (flat_map MD5.hex_byte) with MD5.hex. rewrite IHhex.
    rewrite !hex_digit_ok; [reflexivity | |].
    + apply N.mod_lt. discriminate.
    + apply N.Div0.div_lt_upper_bound. exact Hb.
Qed.

Lemma hex_app (a b : list N) : MD5.hex (a ++ b) = MD5.hex a ++ MD5.hex b.
Proof. unfold MD5.hex. apply flat_map_app. Qed.

Lemma digest_is_32_hex_digits (msg : list N) :
  List.length (MD5.hex (MD5.digest msg)) = 32%nat
  /\ forallb MD5.is_hex_digit (MD5.hex (MD5.digest msg)) = true.
Proof.
  unfold MD5.digest.
  destruct (MD5.chunks _ _ _) as [[[a b] c] d].
  rewrite !hex_app, !length_app, !forallb_app. unfold MD5.le_bytes.
  destruct (hex_of_bytes (fun i => N.shiftr a (8 * N.of_nat i)) (seq 0 4)) as [-> ->].
  destruct (hex_of_bytes (fun i => N.shiftr b (8 * N.of_nat i)) (seq 0 4)) as [-> ->].
  destruct (hex_of_bytes (fun i => N.shiftr c (8 * N.of_nat i)) (seq 0 4)) as [-> ->].
  destruct (hex_of_bytes (fun i => N.shiftr d (8 * N.of_nat i)) (seq 0 4)) as [-> ->].
  split; reflexivity.
Qed.

(** C8 (fingerprint determinism).  Two texts that are equal once
    lower-cased and trimmed have the same fingerprint; the fingerprint is
    the MD5 digest of the lower-cased, trimmed text written as 32
    hexadecimal digits; and it is not determined by the keyword sequence:
    two texts with the same keywords can have different fingerprints. *)
Theorem fingerprint_of_normalized_text (x y : JS.str)
    (Hnorm : JS.trim (JS.toLowerCase x) = JS.trim (JS.toLowerCase y)) :
  generateQueryHash x = generateQueryHash y
  /\ generateQueryHash x
     = MD5.hex (MD5.digest (JS.utf8_encode (JS.trim (JS.toLowerCase x))))
  /\ List.length (generateQueryHash x) = 32%nat
  /\ forallb MD5.is_hex_digit (generateQueryHash x) = true
  /\ (exists q1 q2, extractKeywords q1 = extractKeywords q2
                    /\ generateQueryHash q1 <> generateQueryHash q2).
Proof.
  unfold generateQueryHash at 1 2 3 4 5. rewrite Hnorm.
  repeat split; try apply digest_is_32_hex_digits.
  exists (JS.lit "hello world"), (JS.lit "hello, world").
  split; [vm_compute; reflexivity | vm_compute; discriminate].
Qed.

Lemma fingerprint_of_normalized_text_witness :
  JS.trim (JS.toLowerCase (JS.lit " Hello World "))
  = JS.trim (JS.toLowerCase (JS.lit "hello world"))
  /\ generateQueryHash (JS.lit " Hello World ")
     = generateQueryHash (JS.lit "hello world").
Proof.
  assert (H : JS.trim (JS.toLowerCase (JS.lit " Hello World "))
              = JS.trim (JS.toLowerCase (JS.lit "hello world")))
    by (vm_compute; reflexivity).
  split; [exact H|].
  exact (proj1 (fingerprint_of_normalized_text _ _ H)).
Defined.

Ltac split_comparisons :=
  repeat match goal with
         | |- context [(?a <=? ?b)%N] =>
           destruct (N.leb_spec a b); cbn [andb negb]; try lia
         | |- context [(?a =? ?b)%N] =>
           destruct (N.eqb_spec a b); cbn [andb negb]; try lia
         end.

Lemma lower_unit_range (u : N) :
  let v := JS.lower_unit u in
  ~ (0x41 <= v <= 0x5A)%N /\ ~ (0xC0 <= v <= 0xDE /\ v <> 0xD7)%N
  /\ ~ (0x400 <= v <= 0x42F)%N.
Proof.
  unfold JS.lower_unit. split_comparisons.
Qed.

Lemma lower_unit_idempotent (u : N) :
  JS.lower_unit (JS.lower_unit u) = JS.lower_unit u.
Proof.
  pose proof (lower_unit_range u) as H. cbv zeta in H.
  generalize dependent (JS.lower_unit u). intros v H.
  unfold JS.lower_unit. split_comparisons.
Qed.

Lemma toLowerCase_idempotent (s : JS.str) :
  JS.toLowerCase (JS.toLowerCase s) = JS.toLowerCase s.
Proof.
  unfold JS.toLowerCase. rewrite map_map. apply map_ext.
  intro u. apply lower_unit_idempotent.
Qed.

(** C7, the claim as stated, fails: the stem of "ease" is "eas", and the
    stem of "eas" is "ea", which the length filter drops. *)
Lemma re_extract_changes_ease :
  extractKeywords (JS.lit "ease") = [JS.lit "eas"]
  /\ re_extract (JS.lit "ease") = []
  /\ re_extract (JS.lit "ease") <> extractKeywords (JS.lit "ease").
Proof.
  split; [vm_compute; reflexivity|].
  split; [vm_compute; reflexivity | vm_compute; discriminate].
Qed.

(** C7 (amended).  The extraction lower-cases its input itself, so
    lower-casing a text beforehand, once or twice, does not change its
    keyword sequence. *)
Theorem extractKeywords_of_lower_cased (x : JS.str) :
  extractKeywords (JS.toLowerCase x) = extractKeywords x
  /\ extractKeywords (JS.toLowerCase (JS.toLowerCase x))
     = extractKeywords (JS.toLowerCase x).
Proof.
  unfold extractKeywords. now rewrite !toLowerCase_idempotent.
Qed.
(** ** The conversation store: [saveConversation] *)

Section SaveConversation.

Variables (uuid : JS.str) (now : Clock.instant).
Variables (userQuery aiResponse : JS.str) (userId sessionId : option JS.str).
Variable metadata : JS.str.

Local Abbreviation new_row :=
  (saved_row uuid now userQuery aiResponse userId sessionId metadata).

Local Abbreviation save insert_fault :=
  (saveConversation uuid now insert_fault userQuery aiResponse userId
     sessionId metadata).

(** The tables once the row is written: the rows in conflict with it are
    gone, it stands last. *)
Local Abbreviation replaced db :=
  (delete_conversations (foreign_keys db) (conflicts new_row) (live db)).

Lemma database_eta (db : database) :
  mkDatabase (live db) (journal db) (foreign_keys db) = db.
Proof. now destruct db. Qed.

Lemma tables_eta (t : tables) :
  mkTables (conversations t) (query_keywords t) (usage_stats t)
    (keyword_seq t) (usage_seq t) = t.
Proof. now destruct t. Qed.

Lemma begin_transaction_opens (db : database) :
  begin_transaction db
  = mkDatabase (live db) (Some (committed db)) (foreign_keys db).
Proof.
  unfold begin_transaction, committed.
  destruct (journal db) as [t|] eqn:E; [|reflexivity].
  rewrite <- E. symmetry. apply database_eta.
Qed.

Lemma has_conversation_last (cid : JS.str) (c : conversation)
    (cs : list conversation) :
  id c = cid -> has_conversation cid (cs ++ [c]) = true.
Proof.
  intros <-. unfold has_conversation. rewrite existsb_app. cbn.
  rewrite str_eqb_refl. now rewrite orb_true_r.
Qed.

(** A save whose INSERT OR REPLACE succeeds: the row is written inside
    the transaction, which stays open, and the promise stays pending. *)
Lemma save_written (db : database) :
  save None db
  = (mkDatabase
       (mkTables (conversations (replaced db) ++ [new_row])
          (query_keywords (replaced db)) (usage_stats (replaced db))
          (keyword_seq (live db)) (usage_seq (live db)))
       (Some (committed db)) (foreign_keys db),
     Pending).
Proof.
  unfold saveConversation, run. rewrite begin_transaction_opens.
  cbn [foreign_keys live with_live journal insert_or_replace
       delete_conversations conversations query_keywords usage_stats
       keyword_seq usage_seq].
  fold (saved_row uuid now userQuery aiResponse userId sessionId metadata).
  now destruct (extractKeywords userQuery).
Qed.

(** A save whose INSERT OR REPLACE fails: nothing is written, and the
    transaction is open all the same. *)
Lemma save_insert_failed (db : database) (err : sqlite_error) :
  save (Some err) db
  = (mkDatabase (live db) (Some (committed db)) (foreign_keys db), Pending).
Proof.
  unfold saveConversation, run. now rewrite begin_transaction_opens.
Qed.

Lemma save_never_settles (insert_fault : option sqlite_error)
    (db : database) :
  snd (save insert_fault db) = Pending.
Proof.
  destruct insert_fault as [err|];
    [now rewrite save_insert_failed | now rewrite save_written].
Qed.

(** C1 (defect).  A save of a query with keywords, whose INSERT OR
    REPLACE succeeds, stops in the keyword phase: the first keyword INSERT
    is not even issued, because [this.db] is undefined where it is
    written.  Nothing is rolled back: the promise stays pending, the
    transaction stays open over the tables committed before, the
    conversation row is visible on the connection, and no keyword entry
    has been written for it. *)
Theorem keyword_phase_is_never_rolled_back (db : database)
    (Hkeywords : extractKeywords userQuery <> []) :
  let '(db', result) := save None db in
  result = Pending
  /\ journal db' = Some (committed db)
  /\ In new_row (conversations (live db'))
  /\ query_keywords (live db') = query_keywords (replaced db)
  /\ keyword_seq (live db') = keyword_seq (live db)
  /\ (forall k, In k (query_keywords (live db')) ->
                In k (query_keywords (live db))).
Proof.
  rewrite save_written. cbn [live journal conversations query_keywords
                             keyword_seq].
  split; [reflexivity|]. split; [reflexivity|].
  split; [apply in_or_app; right; now left|].
  split; [reflexivity|]. split; [reflexivity|].
  intros k Hk. cbn in Hk. now apply filter_In in Hk.
Qed.

End SaveConversation.

Lemma keyword_phase_is_never_rolled_back_witness :
  extractKeywords (JS.lit "alpha beta gamma")
  = [JS.lit "alpha"; JS.lit "beta"; JS.lit "gamma"]
  /\ exists db',
       save_at noon "id-1" "alpha beta gamma" "an answer" None
         (Store.open false)
       = (db', Pending)
       /\ journal db' = Some empty_tables
       /\ map id (conversations (live db')) = [JS.lit "id-1"]
       /\ query_keywords (live db') = [].
Proof.
  assert (Hk : extractKeywords (JS.lit "alpha beta gamma")
               = [JS.lit "alpha"; JS.lit "beta"; JS.lit "gamma"])
    by (vm_compute; reflexivity).
  split; [exact Hk|].
  pose proof (keyword_phase_is_never_rolled_back (JS.lit "id-1") noon
                (JS.lit "alpha beta gamma") (JS.lit "an answer") None None
                (JS.lit "{}") (Store.open false)) as H.
  unfold save_at.
  destruct (saveConversation _ _ _ _ _ _ _ _ _) as [db' result] eqn:E.
  destruct H as [Hres [Hj [_ [Hkw _]]]]; [rewrite Hk; discriminate|].
  exists db'. split; [now rewrite Hres|]. split; [exact Hj|].
  split; [|exact Hkw].
  apply (f_equal fst) in E. cbn [fst] in E. rewrite <- E.
  vm_compute. reflexivity.
Defined.

(** *** Keyword weights *)




(** *** Saves without keywords *)

(** C9 (defect).  A save whose query yields no keyword, and whose INSERT
    OR REPLACE succeeds, stops at the COMMIT of line 95, which is written
    on the undefined [this.db]: the promise does not resolve with the id,
    it stays pending; the row is visible on the connection but not
    committed: the committed tables are those from before the call. *)
Theorem save_without_keywords_is_not_committed (uuid : JS.str)
    (now : Clock.instant) (userQuery aiResponse : JS.str)
    (userId sessionId : option JS.str) (metadata : JS.str) (db : database)
    (Hnone : extractKeywords userQuery = []) :
  let '(db', result) :=
    saveConversation uuid now None userQuery aiResponse userId sessionId
      metadata db in
  result <> Settled (Resolved uuid)
  /\ result = Pending
  /\ journal db' <> None
  /\ committed db' = committed db
  /\ In (saved_row uuid now userQuery aiResponse userId sessionId metadata)
        (conversations (live db')).
Proof.
  rewrite save_written. unfold committed at 1. cbn [journal live conversations].
  split; [discriminate|]. split; [reflexivity|]. split; [discriminate|].
  split; [reflexivity|]. apply in_or_app. right. now left.
Qed.

Lemma save_without_keywords_is_not_committed_witness :
  extractKeywords (JS.lit "Что это?") = []
  /\ exists db',
       save_at noon "id-1" "Что это?" "an answer" None (Store.open false)
       = (db', Pending)
       /\ committed db' = empty_tables
       /\ map id (conversations (live db')) = [JS.lit "id-1"].
Proof.
  assert (Hk : extractKeywords (JS.lit "Что это?") = [])
    by (vm_compute; reflexivity).
  split; [exact Hk|].
  pose proof (save_without_keywords_is_not_committed (JS.lit "id-1") noon
                (JS.lit "Что это?") (JS.lit "an answer") None None
                (JS.lit "{}") (Store.open false) Hk) as H.
  unfold save_at.
  destruct (saveConversation _ _ _ _ _ _ _ _ _) as [db' result] eqn:E.
  destruct H as [_ [Hres [_ [Hc _]]]].
  exists db'. split; [now rewrite Hres|]. split; [exact Hc|].
  apply (f_equal fst) in E. cbn [fst] in E. rewrite <- E.
  vm_compute. reflexivity.
Defined.

(** *** Identity of a saved conversation *)

Lemma not_in_conflict (c c0 : conversation) :
  negb (conflicts c c0) = true ->
  id c0 <> id c /\ query_hash c0 <> query_hash c.
Proof.
  unfold conflicts. rewrite negb_true_iff, orb_false_iff.
  intros [H1 H2]. split; now apply str_eqb_neq.
Qed.

(** C10 (defect).  A save writes its row under the id generated for the
    call: after the INSERT OR REPLACE the one row with the fingerprint of
    the query is that row, and a row that held the fingerprint under
    another id is gone.  But no id is ever returned: whether the INSERT OR
    REPLACE succeeds or fails, the promise is left pending. *)
Theorem resave_takes_the_new_id_and_returns_nothing (uuid : JS.str)
    (now : Clock.instant) (userQuery aiResponse : JS.str)
    (userId sessionId : option JS.str) (metadata : JS.str) (db : database) :
  let save insert_fault :=
    saveConversation uuid now insert_fault userQuery aiResponse userId
      sessionId metadata db in
  let written :=
    saved_row uuid now userQuery aiResponse userId sessionId metadata in
  let db' := fst (save None) in
  (forall insert_fault x,
     snd (save insert_fault) <> Settled (Resolved x))
  /\ In written (conversations (live db'))
  /\ id written = uuid
  /\ (forall c, In c (conversations (live db')) ->
                query_hash c = generateQueryHash userQuery -> c = written)
  /\ (forall c0, In c0 (conversations (live db)) ->
                 query_hash c0 = generateQueryHash userQuery ->
                 id c0 <> uuid ->
                 ~ In c0 (conversations (live db'))).
Proof.
  cbv zeta. split.
  - intros insert_fault x. now rewrite save_never_settles.
  - rewrite save_written. cbn [fst live conversations].
    split; [apply in_or_app; right; now left|]. split; [reflexivity|].
    split.
    + intros c Hin Hh. apply in_app_or in Hin as [Hin|[<-|[]]]; [|reflexivity].
      cbn in Hin. apply filter_In in Hin as [_ Hn].
      apply not_in_conflict in Hn as [_ Hn]. now destruct Hn.
    + intros c0 _ Hh Hid Hin. apply in_app_or in Hin as [Hin|[<-|[]]].
      * cbn in Hin. apply filter_In in Hin as [_ Hn].
        apply not_in_conflict in Hn as [_ Hn]. now destruct Hn.
      * now destruct Hid.
Qed.

(** The re-save of the specification's question: the row of id-1 is
    replaced by a row of id-2, and the call has returned nothing. *)
Example resave_of_rust :
  map id (conversations (live rust_saved)) = [JS.lit "id-1"]
  /\ map (fun c => (id c, usage_count c))
       (conversations (live (fst rust_saved_again)))
     = [(JS.lit "id-2", 1%Z)]
  /\ snd rust_saved_again = Pending.
Proof. vm_compute. repeat split. Qed.

(** *** Uniqueness of fingerprints *)

(** Rows with distinct keys keep distinct keys when some are filtered
    out. *)
Lemma filter_keeps_keys_distinct (A B : Type) (key : A -> B)
    (keep : A -> bool) :
  forall rows : list A,
    NoDup (map key rows) -> NoDup (map key (filter keep rows)).
Proof.
  intros rows. induction rows as [|r rows IH]; cbn; intros H; [constructor|].
  apply NoDup_cons_iff in H as [Hfresh Hrest].
  destruct (keep r); cbn; [|now apply IH].
  constructor; [|now apply IH].
  intros Hin. apply Hfresh. apply in_map_iff in Hin as [r' [Hkey Hin]].
  apply filter_In in Hin as [Hin _]. apply in_map_iff. now exists r'.
Qed.

Lemma unique_keys_same_conversations (t t' : tables) :
  conversations t' = conversations t -> unique_keys t -> unique_keys t'.
Proof. unfold unique_keys. now intros ->. Qed.

Lemma unique_keys_insert_or_replace (fk : bool) (c : conversation)
    (t : tables) :
  unique_keys t -> unique_keys (insert_or_replace fk c t).
Proof.
  intros [Hid Hhash]. unfold unique_keys, insert_or_replace.
  cbn [conversations delete_conversations]. rewrite !map_app. split.
  - apply NoDup_app; [now apply filter_keeps_keys_distinct | repeat constructor; easy|].
    intros a Ha [<-|[]]. apply in_map_iff in Ha as [c0 [Hc0 Hin]].
    apply filter_In in Hin as [_ Hn].
    apply not_in_conflict in Hn as [Hn _]. now destruct Hn.
  - apply NoDup_app; [now apply filter_keeps_keys_distinct | repeat constructor; easy|].
    intros a Ha [<-|[]]. apply in_map_iff in Ha as [c0 [Hc0 Hin]].
    apply filter_In in Hin as [_ Hn].
    apply not_in_conflict in Hn as [_ Hn]. now destruct Hn.
Qed.

Lemma consistent_begin (db : database) :
  consistent db -> consistent (begin_transaction db).
Proof.
  intros H. unfold begin_transaction.
  destruct (journal db) eqn:E; [exact H|].
  destruct H as [Hl _]. split; [exact Hl|]. cbn. now intros t [= <-].
Qed.

Lemma consistent_save (uuid : JS.str) (now : Clock.instant)
    (insert_fault : option sqlite_error) (userQuery aiResponse : JS.str)
    (userId sessionId : option JS.str) (metadata : JS.str) (db : database) :
  consistent db ->
  consistent (fst (saveConversation uuid now insert_fault userQuery
                     aiResponse userId sessionId metadata db)).
Proof.
  intros H. apply consistent_begin in H. unfold saveConversation, run.
  destruct insert_fault; [exact H|].
  assert (H1 : consistent
                 (with_live (begin_transaction db)
                    (insert_or_replace (foreign_keys (begin_transaction db))
                       (mkConversation uuid userQuery aiResponse
                          (Clock.CURRENT_TIMESTAMP now)
                          (Clock.CURRENT_TIMESTAMP now)
                          (generateQueryHash userQuery) Double.zero 1%Z
                          userId sessionId metadata)
                       (live (begin_transaction db))))).
  { destruct H as [Hl Hj]. split; [|exact Hj].
    now apply unique_keys_insert_or_replace. }
  now destruct (extractKeywords userQuery).
Qed.

Lemma saved_only_consistent (fk : bool) (db : database) :
  saved_only fk db -> consistent db.
Proof.
  induction 1 as [|db uuid now insert_fault q r u s md _ IH].
  - split; [split; constructor | discriminate].
  - now apply consistent_save.
Qed.

(** The constraints also survive the searches (which only count hits) and
    the cleanups (which only delete). *)
Lemma consistent_with_live (db : database) (t : tables) :
  consistent db -> unique_keys t -> consistent (with_live db t).
Proof. intros [_ Hj] Ht. split; [exact Ht | exact Hj]. Qed.

Lemma unique_keys_increment_usage (now : Clock.instant) (cid : JS.str)
    (t : tables) :
  unique_keys t -> unique_keys (increment_usage now cid t).
Proof.
  unfold unique_keys, increment_usage. cbn [conversations].
  assert (Hid : forall c, id (bump now cid c) = id c)
    by (intros c; unfold bump; now destruct (JS.str_eqb (id c) cid)).
  assert (Hh : forall c, query_hash (bump now cid c) = query_hash c)
    by (intros c; unfold bump; now destruct (JS.str_eqb (id c) cid)).
  rewrite !map_map.
  rewrite (map_ext _ _ Hid), (map_ext _ _ Hh). trivial.
Qed.

Lemma consistent_run (fault : option sqlite_error)
    (stmt : bool -> tables -> sqlite_error + tables) (db : database) :
  consistent db ->
  (forall fk t t', unique_keys t -> stmt fk t = inr t' -> unique_keys t') ->
  consistent (fst (run fault stmt db)).
Proof.
  intros H Hstmt. unfold run. destruct fault; [exact H|].
  destruct (stmt (foreign_keys db) (live db)) as [err|t'] eqn:E; [exact H|].
  destruct H as [Hl Hj]. split; [|exact Hj].
  exact (Hstmt _ _ _ Hl E).
Qed.

Lemma consistent_updateUsageCount (now : Clock.instant)
    (f1 f2 : option sqlite_error) (cid : JS.str) (db : database) :
  consistent db -> consistent (updateUsageCount now f1 f2 cid db).
Proof.
  intros H. unfold updateUsageCount.
  pose proof (consistent_run f1
                (fun _ t => inr (increment_usage now cid t)) db H) as H1.
  destruct (run f1 _ db) as [db1 o1]. cbn [fst] in H1.
  assert (C1 : consistent db1).
  { apply H1. intros fk t t' Ht [= <-].
    now apply unique_keys_increment_usage. }
  pose proof (consistent_run f2 (fun fk => insert_usage fk now cid) db1 C1)
    as H2.
  destruct (run f2 _ db1) as [db2 o2]. cbn [fst] in H2.
  apply H2. intros fk t t' Ht. unfold insert_usage.
  destruct (fk && _); [discriminate|]. intros [= <-]. exact Ht.
Qed.

Lemma consistent_record_hits (now : Clock.instant) (faults : find_faults)
    (ids : list JS.str) :
  forall db, consistent db ->
             consistent (fold_left (record_hit now faults) ids db).
Proof.
  induction ids as [|cid ids IH]; intros db H; [exact H|].
  cbn [fold_left]. apply IH. now apply consistent_updateUsageCount.
Qed.

Lemma consistent_find (now : Clock.instant) (faults : find_faults)
    (query : JS.str) (limit : option Z) (minSimilarity : option Double.t)
    (db : database) :
  consistent db ->
  consistent (fst (findSimilarConversations now faults query limit
                     minSimilarity db)).
Proof.
  intros H. unfold findSimilarConversations.
  destruct (get_fault faults); [exact H|].
  destruct (find _ _).
  - now apply consistent_updateUsageCount.
  - destruct (extractKeywords query); [exact H|].
    destruct (all_fault faults); [exact H|].
    now apply consistent_record_hits.
Qed.

Lemma consistent_cleanup (now : Clock.instant) (fault : option sqlite_error)
    (daysOld : option Z) (db : database) :
  consistent db ->
  consistent (fst (cleanupOldRecords now fault daysOld db)).
Proof.
  intros H. unfold cleanupOldRecords. destruct fault; [exact H|].
  apply consistent_with_live; [exact H|]. destruct H as [[Hid Hh] _].
  split; cbn [delete_conversations conversations];
    now apply filter_keeps_keys_distinct.
Qed.

(** On every reachable state the ids and the fingerprints of the stored
    conversations are pairwise distinct. *)
Lemma reachable_consistent (fk : bool) (db : database) :
  reachable fk db -> consistent db.
Proof.
  induction 1.
  - split; [split; constructor | discriminate].
  - now apply consistent_save.
  - now apply consistent_find.
  - now apply consistent_cleanup.
Qed.

Lemma filter_none {A : Type} (p : A -> bool) (l : list A) :
  (forall a, In a l -> p a = false) -> filter p l = [].
Proof.
  induction l as [|a l IH]; intros H; [reflexivity|]. cbn.
  rewrite (H a (or_introl eq_refl)). apply IH. intros b Hb. apply H. now right.
Qed.



(** ** The exact match of [findSimilarConversations] *)

Lemma NoDup_map_injective {A B : Type} (f : A -> B) (l : list A) (a b : A) :
  NoDup (map f l) -> In a l -> In b l -> f a = f b -> a = b.
Proof.
  induction l as [|x l IH]; cbn; intros Hnd Ha Hb Hf; [easy|].
  apply NoDup_cons_iff in Hnd as [Hx Hnd].
  destruct Ha as [<-|Ha], Hb as [<-|Hb]; try reflexivity.
  - destruct Hx. rewrite Hf. now apply in_map.
  - destruct Hx. rewrite <- Hf. now apply in_map.
  - now apply IH.
Qed.

Lemma find_by_hash (h : JS.str) (cs : list conversation) (c : conversation) :
  NoDup (map query_hash cs) -> In c cs -> query_hash c = h ->
  find (fun c0 => JS.str_eqb (query_hash c0) h) cs = Some c.
Proof.
  intros Hnd Hin Hh.
  destruct (find (fun c0 => JS.str_eqb (query_hash c0) h) cs) as [c'|] eqn:E.
  - apply find_some in E as [Hin' Hh']. apply str_eqb_eq in Hh'.
    f_equal. apply (NoDup_map_injective query_hash cs); congruence.
  - apply find_none with (x := c) in E; [|exact Hin].
    apply str_eqb_neq in E. congruence.
Qed.

(** C5.  When a stored conversation has the fingerprint of the query (and
    the lookup itself does not fail), the search resolves with that
    conversation alone, similarity 1 and matchType exact, for every limit
    and every threshold; the keyword table plays no part in the
    result. *)
Theorem exact_match_is_returned_alone (now : Clock.instant)
    (faults : find_faults) (query : JS.str) (limit : option Z)
    (minSimilarity : option Double.t) (db : database) (c : conversation)
    (Hlookup : get_fault faults = None)
    (Hunique : NoDup (map query_hash (conversations (live db))))
    (Hstored : In c (conversations (live db)))
    (Hsame : query_hash c = generateQueryHash query) :
  snd (findSimilarConversations now faults query limit minSimilarity db)
  = Resolved [mkMatch c None None Double.one exact]
  /\ forall db2,
       conversations (live db2) = conversations (live db) ->
       snd (findSimilarConversations now faults query limit minSimilarity db2)
       = Resolved [mkMatch c None None Double.one exact].
Proof.
  assert (H : forall db2, conversations (live db2) = conversations (live db) ->
              snd (findSimilarConversations now faults query limit
                     minSimilarity db2)
              = Resolved [mkMatch c None None Double.one exact]).
  { intros db2 Heq. unfold findSimilarConversations. rewrite Hlookup, Heq.
    now rewrite (find_by_hash _ _ c Hunique Hstored Hsame). }
  split; [now apply H | exact H].
Qed.

Lemma exact_match_is_returned_alone_witness :
  get_fault no_find_faults = None
  /\ NoDup (map query_hash (conversations (live rust_saved)))
  /\ (exists c,
        In c (conversations (live rust_saved))
        /\ query_hash c = generateQueryHash (JS.lit "What Is Rust")
        /\ snd (findSimilarConversations noon no_find_faults
                  (JS.lit "What Is Rust") (Some 5%Z) (Some (Double.decimal 9 10))
                  rust_saved)
           = Resolved [mkMatch c None None Double.one exact]).
Proof.
  assert (Hnd : NoDup (map query_hash (conversations (live rust_saved)))).
  { assert (Hs : saved_only true rust_saved)
      by (unfold rust_saved, save_at; repeat constructor).
    now destruct (saved_only_consistent true rust_saved Hs) as [[_ Hh] _]. }
  split; [reflexivity|]. split; [exact Hnd|].
  exists (saved_row (JS.lit "id-1") noon (JS.lit "what is rust")
            (JS.lit "a language") None None (JS.lit "{}")).
  assert (Hin : In (saved_row (JS.lit "id-1") noon (JS.lit "what is rust")
                      (JS.lit "a language") None None (JS.lit "{}"))
                   (conversations (live rust_saved)))
    by (vm_compute; left; reflexivity).
  assert (Hh : query_hash (saved_row (JS.lit "id-1") noon
                             (JS.lit "what is rust") (JS.lit "a language")
                             None None (JS.lit "{}"))
               = generateQueryHash (JS.lit "What Is Rust"))
    by (vm_compute; reflexivity).
  split; [exact Hin|]. split; [exact Hh|].
  exact (proj1 (exact_match_is_returned_alone noon no_find_faults
                  (JS.lit "What Is Rust") (Some 5%Z) (Some (Double.decimal 9 10))
                  rust_saved _ eq_refl Hnd Hin Hh)).
Defined.

(** ** Retention: [cleanupOldRecords] *)

Lemma filter_partition_length {A : Type} (p : A -> bool) (l : list A) :
  (List.length (filter p l) + List.length (filter (fun a => negb (p a)) l)
   = List.length l)%nat.
Proof.
  induction l as [|a l IH]; [reflexivity|]. cbn.
  destruct (p a); cbn; lia.
Qed.

(** C3, the claim as stated, fails: a caller cannot supply the usage
    threshold.  For a conversation forty days old with usage_count 5,
    Purge(30, 10) of the specification removes it, while
    [cleanupOldRecords], whatever its argument, keeps it. *)
Lemma cleanup_has_no_usage_threshold :
  map usage_count (conversations (live old_popular)) = [5%Z]
  /\ snd (Purge noon 30 10 old_popular) = 1%Z
  /\ conversations (live (fst (Purge noon 30 10 old_popular))) = []
  /\ snd (cleanupOldRecords noon None (Some 30%Z) old_popular) = Resolved 0%Z
  /\ forall daysOld,
       conversations (live (fst (cleanupOldRecords noon None daysOld
                                   old_popular)))
       = conversations (live old_popular).
Proof.
  split; [vm_compute; reflexivity|]. split; [vm_compute; reflexivity|].
  split; [vm_compute; reflexivity|]. split; [vm_compute; reflexivity|].
  intros daysOld. unfold cleanupOldRecords.
  cbn [fst live with_live delete_conversations conversations].
  set (cs := conversations (live old_popular)).
  assert (Hcs : map usage_count cs = [5%Z]) by (vm_compute; reflexivity).
  destruct cs as [|c [|c' cs]]; try discriminate.
  injection Hcs as Hc. cbn [filter]. rewrite Hc.
  change (5 <? 2)%Z with false. now rewrite andb_false_r.
Qed.

(** What [cleanupOldRecords] does, statement for statement: the rows
    removed are those for which the comparison of the two texts and the
    comparison with 2 both hold. *)
Lemma cleanup_compares_texts (now : Clock.instant) (daysOld : option Z)
    (db : database) :
  let cutoff :=
    Clock.toISOString (Clock.minus_days now (default 30%Z daysOld)) in
  let db' := fst (cleanupOldRecords now None daysOld db) in
  (forall c, In c (conversations (live db')) <->
             In c (conversations (live db))
             /\ ~ (JS.ltb (created_at c) cutoff = true
                   /\ (usage_count c < 2)%Z))
  /\ (exists removed : nat,
        snd (cleanupOldRecords now None daysOld db)
        = Resolved (Z.of_nat removed)
        /\ (List.length (conversations (live db))
            = List.length (conversations (live db')) + removed)%nat).
Proof.
  cbv zeta. unfold cleanupOldRecords.
  cbn [fst snd live with_live delete_conversations conversations].
  set (cutoff := Clock.toISOString _).
  set (doomed := fun c : conversation =>
                   JS.ltb (created_at c) cutoff && (usage_count c <? 2)%Z).
  assert (Hd : forall c, doomed c = true <->
                 JS.ltb (created_at c) cutoff = true /\ (usage_count c < 2)%Z).
  { intros c. unfold doomed. rewrite andb_true_iff, Z.ltb_lt. reflexivity. }
  split.
  - intros c. rewrite filter_In, negb_true_iff, <- Hd.
    now rewrite not_true_iff_false.
  - exists (List.length (filter doomed (conversations (live db)))).
    split; [reflexivity|].
    rewrite <- (filter_partition_length doomed (conversations (live db))).
    cbv beta delta [doomed]. lia.
Qed.

Lemma ltb_of_prefixes (n : nat) :
  forall a b : JS.str,
    JS.ltb (firstn n a) (firstn n b) = true -> JS.ltb a b = true.
Proof.
  induction n as [|n IH]; intros a b; [discriminate|].
  destruct a as [|x a], b as [|y b]; cbn; try easy.
  destruct (x <? y)%N; [easy|]. destruct (y <? x)%N; [easy|]. apply IH.
Qed.

Lemma ltb_asymmetric :
  forall a b : JS.str, JS.ltb a b = true -> JS.ltb b a = false.
Proof.
  induction a as [|x a IH]; intros [|y b]; cbn; try easy.
  destruct (N.ltb_spec x y), (N.ltb_spec y x); try easy; try lia.
  apply IH.
Qed.

(** C3 (amended).  [cleanupOldRecords(daysOld)], 30 days when the argument
    is left out, has the usage threshold 2 built in; no caller supplies
    it.  It removes the conversations with usage_count below 2 whose
    [created_at] day is before the day of the cutoff, keeps those whose
    [created_at] day is after it, keeps every conversation with
    usage_count 2 or more whatever its age, adds nothing, and resolves
    with the number of conversations removed. *)
Theorem cleanup_removes_stale_unused (now : Clock.instant)
    (daysOld : option Z) (db : database) :
  let cutoff :=
    Clock.toISOString (Clock.minus_days now (default 30%Z daysOld)) in
  let db' := fst (cleanupOldRecords now None daysOld db) in
  (forall c, (usage_count c < 2)%Z ->
             JS.ltb (date_part (created_at c)) (date_part cutoff) = true ->
             ~ In c (conversations (live db')))
  /\ (forall c, In c (conversations (live db)) ->
                JS.ltb (date_part cutoff) (date_part (created_at c)) = true ->
                In c (conversations (live db')))
  /\ (forall c, In c (conversations (live db)) -> (2 <= usage_count c)%Z ->
                In c (conversations (live db')))
  /\ (forall c, In c (conversations (live db')) ->
                In c (conversations (live db)))
  /\ (exists removed : nat,
        snd (cleanupOldRecords now None daysOld db)
        = Resolved (Z.of_nat removed)
        /\ (List.length (conversations (live db))
            = List.length (conversations (live db')) + removed)%nat).
Proof.
  destruct (cleanup_compares_texts now daysOld db) as [Hin Hcount].
  cbv zeta in *. unfold date_part.
  split; [|split; [|split; [|split]]].
  - intros c Hu Hday Hc. apply Hin in Hc as [_ Hc]. apply Hc.
    split; [|exact Hu]. now apply ltb_of_prefixes with (n := 10%nat).
  - intros c Hc Hday. apply Hin. split; [exact Hc|]. intros [Hlt _].
    apply ltb_of_prefixes, ltb_asymmetric in Hday. congruence.
  - intros c Hc Hu. apply Hin. split; [exact Hc|]. lia.
  - intros c Hc. now apply Hin in Hc.
  - exact Hcount.
Qed.

(** The retention example of the specification: forty days old, thirty
    days allowed.  With usage_count 1 the conversation is removed, with
    usage_count 5 it stays. *)
Example retention_forty_days :
  map usage_count (conversations (live old_unused)) = [1%Z]
  /\ snd (cleanupOldRecords noon None (Some 30%Z) old_unused) = Resolved 1%Z
  /\ conversations (live (fst (cleanupOldRecords noon None (Some 30%Z)
                                 old_unused))) = []
  /\ cleanupOldRecords noon None (Some 30%Z) old_popular
     = (old_popular, Resolved 0%Z).
Proof. repeat split; vm_compute; reflexivity. Qed.

(** [created_at] is stored as "YYYY-MM-DD HH:MM:SS" and the cutoff is sent
    as "YYYY-MM-DDTHH:MM:SS.sssZ"; the comparison is one of texts, and a
    space sorts before T.  A conversation written on the cutoff's day
    after the cutoff instant is therefore removed. *)
Example same_day_is_stale :
  map created_at (conversations (live evening_of_cutoff_day))
  = [JS.lit "2026-10-03 18:00:00"]
  /\ Clock.toISOString (Clock.minus_days noon 30)
     = JS.lit "2026-10-03T12:00:00.000Z"
  /\ snd (cleanupOldRecords noon None (Some 30%Z) evening_of_cutoff_day)
     = Resolved 1%Z.
Proof. repeat split; vm_compute; reflexivity. Qed.

Lemma cleanup_removes_stale_unused_witness :
  exists removed : nat,
    snd (cleanupOldRecords noon None (Some 30%Z) old_unused)
    = Resolved (Z.of_nat removed)
    /\ (List.length (conversations (live old_unused))
        = List.length
            (conversations
               (live (fst (cleanupOldRecords noon None (Some 30%Z) old_unused))))
          + removed)%nat.
Proof.
  exact (proj2 (proj2 (proj2 (proj2
           (cleanup_removes_stale_unused noon (Some 30%Z) old_unused))))).
Defined.
(** ** The similarity ranker *)

(** *** The order of doubles *)











(** *** ORDER BY *)




Lemma insert_ranked_perm (a : ranked) (l : list ranked) :
  Permutation (insert_ranked a l) (a :: l).
Proof.
  induction l as [|b l IH]; cbn; [reflexivity|].
  destruct (outranks b a); [|reflexivity].
  rewrite IH. apply perm_swap.
Qed.


Lemma order_by_perm (l : list ranked) : Permutation (order_by l) l.
Proof.
  induction l as [|a l IH]; cbn; [reflexivity|].
  rewrite insert_ranked_perm. now constructor.
Qed.


(** *** GROUP BY *)

Lemma add_to_group_new (c : conversation) (k : keyword_row)
    (gs : list (conversation * list keyword_row)) :
  (forall g, In g gs -> group_id g <> id c) ->
  add_to_group c k gs = gs ++ [(c, [k])].
Proof.
  induction gs as [|[c0 ks] gs IH]; intros H; [reflexivity|].
  cbn [add_to_group app].
  assert (H0 : JS.str_eqb (id c0) (id c) = false).
  { apply str_eqb_neq. apply (H (c0, ks)). now left. }
  rewrite H0. f_equal. apply IH. intros g Hg. apply H. now right.
Qed.

Lemma add_to_group_last (c : conversation) (k : keyword_row)
    (gs : list (conversation * list keyword_row)) (ks : list keyword_row) :
  (forall g, In g gs -> group_id g <> id c) ->
  add_to_group c k (gs ++ [(c, ks)]) = gs ++ [(c, ks ++ [k])].
Proof.
  induction gs as [|[c0 ks0] gs IH]; intros H.
  - cbn. now rewrite str_eqb_refl.
  - cbn [add_to_group app].
    assert (H0 : JS.str_eqb (id c0) (id c) = false).
    { apply str_eqb_neq. apply (H (c0, ks0)). now left. }
    rewrite H0. f_equal. apply IH. intros g Hg. apply H. now right.
Qed.

Lemma fold_group_last (c : conversation) (more : list keyword_row) :
  forall (gs : list (conversation * list keyword_row))
         (ks : list keyword_row),
    (forall g, In g gs -> group_id g <> id c) ->
    fold_left (fun groups r => add_to_group (fst r) (snd r) groups)
      (map (pair c) more) (gs ++ [(c, ks)])
    = gs ++ [(c, ks ++ more)].
Proof.
  induction more as [|k more IH]; intros gs ks H.
  - cbn. now rewrite app_nil_r.
  - cbn [map fold_left fst snd]. rewrite add_to_group_last by exact H.
    rewrite IH by exact H. now rewrite <- app_assoc.
Qed.

Lemma fold_one_conversation (K : list JS.str) (t : tables) (c : conversation)
    (gs : list (conversation * list keyword_row)) :
  (forall g, In g gs -> group_id g <> id c) ->
  fold_left (fun groups r => add_to_group (fst r) (snd r) groups)
    (map (pair c) (matching_entries K t c)) gs
  = gs ++ group_of K t c.
Proof.
  intros H. unfold group_of, has_match.
  destruct (matching_entries K t c) as [|k ks].
  - cbn. now rewrite app_nil_r.
  - cbn [map fold_left fst snd]. rewrite add_to_group_new by exact H.
    now rewrite fold_group_last by exact H.
Qed.

Lemma group_of_id (K : list JS.str) (t : tables) (c : conversation)
    (g : conversation * list keyword_row) :
  In g (group_of K t c) -> group_id g = id c.
Proof.
  unfold group_of. destruct (has_match K t c); [|easy].
  now intros [<-|[]].
Qed.

Lemma fold_all_conversations (K : list JS.str) (t : tables) :
  forall (cs : list conversation)
         (gs : list (conversation * list keyword_row)),
    NoDup (map id cs) ->
    (forall g c, In g gs -> In c cs -> group_id g <> id c) ->
    fold_left (fun groups r => add_to_group (fst r) (snd r) groups)
      (flat_map (fun c => map (pair c) (matching_entries K t c)) cs) gs
    = gs ++ flat_map (group_of K t) cs.
Proof.
  induction cs as [|c cs IH]; intros gs Hnd Hgs.
  - cbn. now rewrite app_nil_r.
  - cbn [flat_map map]. apply NoDup_cons_iff in Hnd as [Hc Hnd].
    rewrite fold_left_app, fold_one_conversation.
    + rewrite IH; [now rewrite <- app_assoc | exact Hnd |].
      intros g c' Hg Hc'. apply in_app_or in Hg as [Hg|Hg].
      * apply Hgs; [exact Hg | now right].
      * rewrite (group_of_id K t c g Hg). intros Heq. apply Hc.
        rewrite Heq. now apply in_map.
    + intros g Hg. apply Hgs; [exact Hg | now left].
Qed.

Lemma group_by_id_joined (K : list JS.str) (t : tables) :
  NoDup (map id (conversations t)) ->
  group_by_id (joined K t) = flat_map (group_of K t) (conversations t).
Proof.
  intros Hnd. unfold group_by_id, joined.
  change (fun c => map (pair c)
            (filter (fun k => JS.str_eqb (id c) (conversation_id k)
                              && has K (keyword k)) (query_keywords t)))
    with (fun c => map (pair c) (matching_entries K t c)).
  now rewrite fold_all_conversations.
Qed.

Lemma select_groups (K : list JS.str) (t : tables) (cs : list conversation) :
  map (select (List.length K)) (flat_map (group_of K t) cs)
  = map (rank_of K t) (filter (has_match K t) cs).
Proof.
  induction cs as [|c cs IH]; [reflexivity|].
  cbn [flat_map filter]. rewrite map_app, IH. unfold group_of at 1.
  destruct (has_match K t c); reflexivity.
Qed.

Lemma filter_of_map {A B : Type} (f : A -> B) (p : B -> bool) (l : list A) :
  filter p (map f l) = map f (filter (fun a => p (f a)) l).
Proof.
  induction l as [|a l IH]; [reflexivity|]. cbn.
  destruct (p (f a)); cbn; now rewrite IH.
Qed.

(** The ranking query, in terms of the candidates. *)
Lemma similar_query_ranks_candidates (K : list JS.str) (tau : Double.t)
    (limit : Z) (t : tables) :
  NoDup (map id (conversations t)) ->
  similar_query K tau limit t
  = limit_rows limit (order_by (map (rank_of K t) (candidates K tau t))).
Proof.
  intros Hnd. unfold similar_query, candidates.
  rewrite group_by_id_joined by exact Hnd.
  rewrite select_groups, filter_of_map. reflexivity.
Qed.

Lemma in_candidates (K : list JS.str) (tau : Double.t) (t : tables)
    (c : conversation) :
  In c (candidates K tau t)
  <-> In c (conversations t) /\ matching_entries K t c <> []
      /\ Double.leb tau (score K t c) = true.
Proof.
  unfold candidates. rewrite !filter_In. unfold has_match.
  destruct (matching_entries K t c); intuition congruence.
Qed.

Lemma find_nothing {A : Type} (p : A -> bool) (l : list A) :
  (forall a, In a l -> p a = false) -> find p l = None.
Proof.
  intros H. destruct (find p l) as [a|] eqn:E; [|reflexivity].
  apply find_some in E as [Hin Hp]. rewrite (H a Hin) in Hp. discriminate.
Qed.




(** The examples of the specification.  On a tie of similarity the
    conversation used 7 times comes before the one used 3 times; for the
    conversation of "alpha beta gamma" the query "beta" scores 0.9, which
    passes the threshold 0.3 and not the threshold 0.99. *)
Example tie_broken_by_usage_count :
  match snd (findSimilarConversations noon no_find_faults
               (JS.lit "alpha delta") (Some 5%Z) (Some (Double.decimal 3 10))
               two_greek) with
  | Resolved rows =>
    map (fun r => (id (row r), usage_count (row r), m_similarity r,
                   matchType r))
      rows
  | Rejected _ => []
  end
  = [(JS.lit "id-2", 7%Z, Double.decimal 1 2, similar);
     (JS.lit "id-1", 3%Z, Double.decimal 1 2, similar)].
Proof. vm_compute. reflexivity. Qed.

Example second_keyword_scores_nine_tenths :
  let result tau :=
    match snd (findSimilarConversations noon no_find_faults (JS.lit "beta")
                 (Some 5%Z) (Some tau) greek_indexed) with
    | Resolved rows => map (fun r => (id (row r), m_similarity r)) rows
    | Rejected _ => []
    end in
  result (Double.decimal 3 10) = [(JS.lit "id-1", Double.decimal 9 10)]
  /\ result (Double.decimal 99 100) = [].
Proof. vm_compute. split; reflexivity. Qed.

(** The comparison with the threshold is one of doubles.  The entry at
    position 7 weighs 1.0 - 7 * 0.1 = 0.29999999999999993: a query that
    matches it alone is not returned at the default threshold 0.3, and is
    returned just below it. *)
Example threshold_is_compared_in_doubles :
  nth_error (extractKeywords (JS.lit eight_words)) 7 = Some (JS.lit "theta")
  /\ snd (findSimilarConversations noon no_find_faults (JS.lit "theta")
            None None eight_indexed)
     = Resolved []
  /\ match snd (findSimilarConversations noon no_find_faults
                  (JS.lit "theta") None (Some (keyword_weight 7))
                  eight_indexed) with
     | Resolved rows => map (fun r => (id (row r), m_similarity r)) rows
     | Rejected _ => []
     end
     = [(JS.lit "id-1", keyword_weight 7)].
Proof. vm_compute. repeat split. Qed.

(** * Further properties of the store and of the routes *)

(** ** Invariants of every reachable state *)

Section Invariant.

Variable fk : bool.
Variable P : tables -> Prop.

Hypothesis P_empty : P empty_tables.
Hypothesis P_replace :
  forall c t, usage_count c = 1%Z -> P t -> P (insert_or_replace fk c t).
Hypothesis P_increment :
  forall now cid t, P t -> P (increment_usage now cid t).
Hypothesis P_usage :
  forall now cid t t', P t -> insert_usage fk now cid t = inr t' -> P t'.
Hypothesis P_delete :
  forall doomed t, P t -> P (delete_conversations fk doomed t).

Local Abbreviation kept db := (foreign_keys db = fk /\ upholds P db).

Lemma kept_begin (db : database) : kept db -> kept (begin_transaction db).
Proof.
  intros H. unfold begin_transaction. destruct (journal db) eqn:E; [exact H|].
  destruct H as [Hfk [Hl _]]. split; [exact Hfk|]. split; [exact Hl|].
  cbn. now intros t [= <-].
Qed.

Lemma kept_run (fault : option sqlite_error)
    (stmt : bool -> tables -> sqlite_error + tables) (db : database) :
  kept db ->
  (forall t t', P t -> stmt fk t = inr t' -> P t') ->
  kept (fst (run fault stmt db)).
Proof.
  intros H Hstmt. unfold run. destruct fault; [exact H|].
  destruct H as [Hfk [Hl Hj]]. rewrite Hfk.
  destruct (stmt fk (live db)) as [err|t'] eqn:E;
    [now repeat split|].
  split; [exact Hfk|]. split; [|exact Hj]. exact (Hstmt _ _ Hl E).
Qed.

Lemma kept_save (uuid : JS.str) (now : Clock.instant)
    (insert_fault : option sqlite_error) (userQuery aiResponse : JS.str)
    (userId sessionId : option JS.str) (metadata : JS.str) (db : database) :
  kept db ->
  kept (fst (saveConversation uuid now insert_fault userQuery aiResponse
               userId sessionId metadata db)).
Proof.
  intros H. apply kept_begin in H. unfold saveConversation.
  pose proof (kept_run insert_fault
                (fun fk0 t =>
                   inr (insert_or_replace fk0
                          (mkConversation uuid userQuery aiResponse
                             (Clock.CURRENT_TIMESTAMP now)
                             (Clock.CURRENT_TIMESTAMP now)
                             (generateQueryHash userQuery) Double.zero 1%Z
                             userId sessionId metadata) t))
                (begin_transaction db) H) as H1.
  destruct (run _ _ (begin_transaction db)) as [db1 o]. cbn [fst] in H1.
  assert (K1 : kept db1).
  { apply H1. intros t t' Ht [= <-]. now apply P_replace. }
  destruct o; [exact K1|].
  now destruct (extractKeywords userQuery).
Qed.

Lemma kept_updateUsageCount (now : Clock.instant)
    (f1 f2 : option sqlite_error) (cid : JS.str) (db : database) :
  kept db -> kept (updateUsageCount now f1 f2 cid db).
Proof.
  intros H. unfold updateUsageCount.
  pose proof (kept_run f1 (fun _ t => inr (increment_usage now cid t)) db H)
    as H1.
  destruct (run f1 _ db) as [db1 o1]. cbn [fst] in H1.
  assert (K1 : kept db1).
  { apply H1. intros t t' Ht [= <-]. now apply P_increment. }
  pose proof (kept_run f2 (fun fk0 => insert_usage fk0 now cid) db1 K1) as H2.
  destruct (run f2 _ db1) as [db2 o2]. cbn [fst] in H2.
  apply H2. intros t t'. apply P_usage.
Qed.

Lemma kept_record_hits (now : Clock.instant) (faults : find_faults)
    (ids : list JS.str) :
  forall db, kept db -> kept (fold_left (record_hit now faults) ids db).
Proof.
  induction ids as [|cid ids IH]; intros db H; [exact H|].
  cbn [fold_left]. apply IH. now apply kept_updateUsageCount.
Qed.

Lemma kept_find (now : Clock.instant) (faults : find_faults) (query : JS.str)
    (limit : option Z) (minSimilarity : option Double.t) (db : database) :
  kept db ->
  kept (fst (findSimilarConversations now faults query limit minSimilarity
               db)).
Proof.
  intros H. unfold findSimilarConversations.
  destruct (get_fault faults); [exact H|].
  destruct (find _ _).
  - now apply kept_updateUsageCount.
  - destruct (extractKeywords query); [exact H|].
    destruct (all_fault faults); [exact H|].
    now apply kept_record_hits.
Qed.

Lemma kept_cleanup (now : Clock.instant) (fault : option sqlite_error)
    (daysOld : option Z) (db : database) :
  kept db -> kept (fst (cleanupOldRecords now fault daysOld db)).
Proof.
  intros H. unfold cleanupOldRecords. destruct fault; [exact H|].
  destruct H as [Hfk [Hl Hj]]. split; [exact Hfk|]. split; [|exact Hj].
  cbn [fst live with_live]. rewrite Hfk. now apply P_delete.
Qed.

Lemma reachable_kept (db : database) : reachable fk db -> kept db.
Proof.
  induction 1.
  - split; [reflexivity|]. split; [exact P_empty | discriminate].
  - now apply kept_save.
  - now apply kept_find.
  - now apply kept_cleanup.
Qed.

End Invariant.

Lemma has_conversation_iff (cid : JS.str) (cs : list conversation) :
  has_conversation cid cs = true <-> exists c, In c cs /\ id c = cid.
Proof.
  unfold has_conversation. rewrite existsb_exists.
  split; intros [c [Hin Hc]]; exists c; (split; [exact Hin|]);
    now apply str_eqb_eq.
Qed.

Lemma bump_id (now : Clock.instant) (cid : JS.str) (c : conversation) :
  id (bump now cid c) = id c.
Proof. unfold bump. now destruct (JS.str_eqb (id c) cid). Qed.

Lemma has_conversation_bump (now : Clock.instant) (cid x : JS.str)
    (cs : list conversation) :
  has_conversation x (map (bump now cid) cs) = has_conversation x cs.
Proof.
  unfold has_conversation. induction cs as [|c cs IH]; [reflexivity|].
  cbn. now rewrite bump_id, IH.
Qed.

Lemma usage_positive_reachable (fk : bool) (db : database) :
  reachable fk db -> upholds usage_positive db.
Proof.
  intros H. apply (reachable_kept fk usage_positive); try exact H.
  - intros c [].
  - intros c t Hc Ht c' Hin. cbn in Hin.
    apply in_app_or in Hin as [Hin|[<-|[]]]; [|lia].
    apply filter_In in Hin as [Hin _]. now apply Ht.
  - intros now cid t Ht c' Hin. cbn in Hin.
    apply in_map_iff in Hin as [c [<- Hin]]. specialize (Ht c Hin).
    unfold bump. destruct (JS.str_eqb (id c) cid); cbn; lia.
  - intros now cid t t' Ht. unfold insert_usage.
    destruct (fk && _); [discriminate|]. intros [= <-]. exact Ht.
  - intros doomed t Ht c Hin. cbn in Hin.
    apply filter_In in Hin as [Hin _]. now apply Ht.
Qed.

Lemma old_popular_reachable : reachable true old_popular.
Proof.
  unfold old_popular, hit, old_unused, save_at.
  do 4 apply reach_find. apply reach_save. apply reach_open.
Qed.

(** X1.  Whatever sequence of saves, searches and cleanups a connection
    has seen, with whatever arguments, generated ids and storage failures,
    no two stored conversations share an id or a fingerprint, and every
    usage counter is at least 1. *)
Theorem stored_keys_unique_and_usage_positive (fk : bool) (db : database)
    (Hreach : reachable fk db) :
  NoDup (map id (conversations (live db)))
  /\ NoDup (map query_hash (conversations (live db)))
  /\ forall c, In c (conversations (live db)) -> (1 <= usage_count c)%Z.
Proof.
  destruct (reachable_consistent fk db Hreach) as [[Hid Hhash] _].
  destruct (usage_positive_reachable fk db Hreach) as [Hu _].
  split; [exact Hid|]. split; [exact Hhash | exact Hu].
Qed.

Lemma stored_keys_unique_and_usage_positive_witness :
  reachable true old_popular
  /\ NoDup (map id (conversations (live old_popular)))
  /\ forall c, In c (conversations (live old_popular)) ->
               (1 <= usage_count c)%Z.
Proof.
  split; [exact old_popular_reachable|].
  destruct (stored_keys_unique_and_usage_positive true old_popular
              old_popular_reachable) as [Hid [_ Hu]].
  split; [exact Hid | exact Hu].
Defined.

(** ** Saving, then searching *)




(** ** What a search does to the store *)

Lemma with_live_live (db : database) : with_live db (live db) = db.
Proof. unfold with_live. apply database_eta. Qed.

Lemma after_no_hits (now : Clock.instant) (cs : list conversation) :
  map (after_hits now []) cs = cs.
Proof.
  induction cs as [|c cs IH]; [reflexivity|]. cbn [map]. now rewrite IH.
Qed.

Lemma after_one_more_hit (now : Clock.instant) (cid : JS.str)
    (ids : list JS.str) (c : conversation) :
  ~ In cid ids ->
  after_hits now ids (bump now cid c) = after_hits now (cid :: ids) c.
Proof.
  intros Hfresh. unfold after_hits. rewrite bump_id. cbn [has existsb].
  destruct (JS.str_eqb (id c) cid) eqn:E.
  - apply str_eqb_eq in E. cbn [orb].
    assert (Hno : has ids (id c) = false).
    { destruct (has ids (id c)) eqn:Hh; [|reflexivity].
      apply existsb_exists in Hh as [x [Hin Hx]]. apply str_eqb_eq in Hx.
      subst. contradiction. }
    fold (has ids (id c)). rewrite Hno. now rewrite E.
  - cbn [orb]. fold (has ids (id c)). destruct (has ids (id c)); [|unfold bump; now rewrite E].
    unfold bump at 2. rewrite E. reflexivity.
Qed.

(** The hits on distinct ids of stored conversations, when none of the two
    statements of a hit fails. *)
Lemma record_hits_effect (now : Clock.instant) (faults : find_faults)
    (ids : list JS.str) :
  (forall cid, hit_faults faults cid = (None, None)) ->
  forall db,
    NoDup ids ->
    (forall cid, In cid ids ->
                 has_conversation cid (conversations (live db)) = true) ->
    fold_left (record_hit now faults) ids db
    = with_live db
        (mkTables (map (after_hits now ids) (conversations (live db)))
           (query_keywords (live db))
           (usage_stats (live db)
            ++ hit_records now (usage_seq (live db)) ids)
           (keyword_seq (live db))
           (usage_seq (live db) + Z.of_nat (List.length ids))).
Proof.
  intros Hf. induction ids as [|cid ids IH]; intros db Hnd Hin.
  - cbn [fold_left hit_records List.length Z.of_nat].
    rewrite after_no_hits, app_nil_r, Z.add_0_r, tables_eta.
    symmetry. apply with_live_live.
  - apply NoDup_cons_iff in Hnd as [Hfresh Hnd].
    cbn [fold_left]. unfold record_hit at 2. rewrite Hf. cbn [fst snd].
    unfold updateUsageCount, run, insert_usage.
    cbn [with_live live foreign_keys increment_usage conversations].
    rewrite has_conversation_bump. rewrite (Hin cid (or_introl eq_refl)).
    rewrite andb_false_r.
    rewrite IH; [|exact Hnd|].
    + unfold with_live. cbn [live journal foreign_keys conversations
        query_keywords usage_stats keyword_seq usage_seq hit_records
        List.length].
      rewrite map_map, <- app_assoc. cbn [app].
      unfold increment_usage.
      cbn [conversations query_keywords usage_stats keyword_seq usage_seq].
      f_equal. f_equal; [|lia].
      apply map_ext. intros c. now apply after_one_more_hit.
    + intros x Hx. cbn [with_live live conversations].
      rewrite has_conversation_bump. apply Hin. now right.
Qed.

Lemma NoDup_firstn {A : Type} (n : nat) (l : list A) :
  NoDup l -> NoDup (firstn n l).
Proof.
  intros H. rewrite <- (firstn_skipn n l) in H.
  now apply NoDup_app_remove_r in H.
Qed.

Lemma in_firstn {A : Type} (n : nat) (l : list A) (x : A) :
  In x (firstn n l) -> In x l.
Proof.
  intros H. rewrite <- (firstn_skipn n l). apply in_or_app. now left.
Qed.

(** The rows of the ranking query are stored conversations, with pairwise
    distinct ids. *)
Lemma similar_query_rows (K : list JS.str) (tau : Double.t) (limit : Z)
    (t : tables) :
  NoDup (map id (conversations t)) ->
  NoDup (map (fun r => id (r_conv r)) (similar_query K tau limit t))
  /\ forall r, In r (similar_query K tau limit t) ->
               In (r_conv r) (conversations t).
Proof.
  intros Hnd. rewrite similar_query_ranks_candidates by exact Hnd.
  set (ranking := order_by (map (rank_of K t) (candidates K tau t))).
  assert (Hperm : Permutation ranking (map (rank_of K t) (candidates K tau t)))
    by apply order_by_perm.
  assert (Hall : NoDup (map (fun r => id (r_conv r)) ranking)).
  { apply Permutation_NoDup
      with (l := map (fun r => id (r_conv r))
                   (map (rank_of K t) (candidates K tau t))).
    - symmetry. now apply Permutation_map.
    - rewrite map_map. cbn [rank_of r_conv]. unfold candidates.
      now do 2 apply filter_keeps_keys_distinct. }
  assert (Hin : forall r, In r ranking -> In (r_conv r) (conversations t)).
  { intros r Hr. apply (Permutation_in _ Hperm) in Hr.
    apply in_map_iff in Hr as [c [<- Hc]]. cbn [rank_of r_conv].
    now apply in_candidates in Hc. }
  unfold limit_rows. destruct (limit <? 0)%Z; [now split|].
  split.
  - rewrite <- firstn_map. now apply NoDup_firstn.
  - intros r Hr. apply Hin. now apply in_firstn in Hr.
Qed.

(** X4.  Every conversation a search resolves with is counted exactly
    once.  On a store with unique ids, when the statements of the hits do
    not fail, the search adds 1 to the usage counter of each returned
    conversation and to no other, appends one usage record per returned
    conversation, in the order of the result, and leaves the keyword
    entries as they are. *)
Theorem returned_conversations_are_hit_once (now : Clock.instant)
    (faults : find_faults) (query : JS.str) (limit : option Z)
    (minSimilarity : option Double.t) (db : database)
    (Hkeys : NoDup (map id (conversations (live db))))
    (Hhits : forall cid, hit_faults faults cid = (None, None)) :
  let '(db', result) :=
    findSimilarConversations now faults query limit minSimilarity db in
  let ids := returned_ids result in
  map (fun c => (id c, usage_count c)) (conversations (live db'))
  = map (fun c => (id c, (usage_count c + if has ids (id c) then 1 else 0)%Z))
      (conversations (live db))
  /\ usage_stats (live db')
     = usage_stats (live db) ++ hit_records now (usage_seq (live db)) ids
  /\ query_keywords (live db') = query_keywords (live db)
  /\ NoDup ids.
Proof.
  assert (Hgen : forall ids,
            NoDup ids ->
            (forall cid, In cid ids ->
                         has_conversation cid (conversations (live db)) = true) ->
            let db' := fold_left (record_hit now faults) ids db in
            map (fun c => (id c, usage_count c)) (conversations (live db'))
            = map (fun c => (id c, (usage_count c
                                    + if has ids (id c) then 1 else 0)%Z))
                (conversations (live db))
            /\ usage_stats (live db')
               = usage_stats (live db)
                 ++ hit_records now (usage_seq (live db)) ids
            /\ query_keywords (live db') = query_keywords (live db)
            /\ NoDup ids).
  { intros ids Hnd Hin. cbv zeta.
    rewrite (record_hits_effect now faults ids Hhits db Hnd Hin).
    cbn [with_live live conversations query_keywords usage_stats].
    split; [|now repeat split]. rewrite map_map. apply map_ext.
    intros c. unfold after_hits. destruct (has ids (id c)).
    - unfold bump. rewrite str_eqb_refl. reflexivity.
    - now rewrite Z.add_0_r. }
  assert (Hnone : let db' := db in
            map (fun c => (id c, usage_count c)) (conversations (live db'))
            = map (fun c => (id c, (usage_count c
                                    + if has [] (id c) then 1 else 0)%Z))
                (conversations (live db))
            /\ usage_stats (live db')
               = usage_stats (live db)
                 ++ hit_records now (usage_seq (live db)) []
            /\ query_keywords (live db') = query_keywords (live db)
            /\ NoDup (@nil JS.str)).
  { apply (Hgen []); [constructor | intros cid []]. }
  unfold findSimilarConversations.
  destruct (get_fault faults); [exact Hnone|].
  destruct (find _ _) as [exactMatch|] eqn:Efind.
  - apply find_some in Efind as [Hin _].
    apply (Hgen [id exactMatch]).
    + repeat constructor. intros [].
    + intros cid [<-|[]]. apply has_conversation_iff. now exists exactMatch.
  - destruct (extractKeywords query) as [|kw rest]; [exact Hnone|].
    destruct (all_fault faults); [exact Hnone|].
    destruct (similar_query_rows (kw :: rest) (default (Double.decimal 3 10) minSimilarity)
                (default 5%Z limit) (live db) Hkeys) as [Hnd Hrows].
    cbn [returned_ids]. rewrite map_map. cbn [row].
    apply Hgen; [exact Hnd|].
    intros cid Hcid. apply in_map_iff in Hcid as [r [<- Hr]].
    apply has_conversation_iff. exists (r_conv r). split; [|reflexivity].
    now apply Hrows.
Qed.

Lemma returned_conversations_are_hit_once_witness :
  NoDup (map id (conversations (live two_greek)))
  /\ (forall cid, hit_faults no_find_faults cid = (None, None))
  /\ map (fun c => (id c, usage_count c))
       (conversations
          (live (fst (findSimilarConversations noon no_find_faults
                        (JS.lit "alpha delta") (Some 1%Z) (Some (Double.decimal 3 10))
                        two_greek))))
     = [(JS.lit "id-1", 3%Z); (JS.lit "id-2", 8%Z)].
Proof.
  assert (Hkeys : NoDup (map id (conversations (live two_greek)))).
  { vm_compute. repeat constructor; cbn; intuition discriminate. }
  split; [exact Hkeys|]. split; [reflexivity|].
  pose proof (returned_conversations_are_hit_once noon no_find_faults
                (JS.lit "alpha delta") (Some 1%Z) (Some (Double.decimal 3 10)) two_greek
                Hkeys (fun _ => eq_refl)) as H.
  destruct (findSimilarConversations _ _ _ _ _ _) as [db' result] eqn:E.
  destruct H as [H _]. cbn [fst]. rewrite H.
  assert (Hids : returned_ids result = [JS.lit "id-2"]).
  { replace result
      with (snd (findSimilarConversations noon no_find_faults
                   (JS.lit "alpha delta") (Some 1%Z) (Some (Double.decimal 3 10)) two_greek))
      by now rewrite E.
    vm_compute. reflexivity. }
  rewrite Hids. vm_compute. reflexivity.
Defined.

Lemma unchanged_but_counted_refl (cs : list conversation) :
  Forall2 (fun c c' => content c' = content c
                       /\ (usage_count c <= usage_count c')%Z) cs cs.
Proof.
  induction cs as [|c cs IH]; constructor; [split; [reflexivity | lia] | exact IH].
Qed.

Lemma unchanged_but_counted_bump (now : Clock.instant) (cid : JS.str)
    (cs0 cs : list conversation) :
  Forall2 (fun c c' => content c' = content c
                       /\ (usage_count c <= usage_count c')%Z) cs0 cs ->
  Forall2 (fun c c' => content c' = content c
                       /\ (usage_count c <= usage_count c')%Z)
    cs0 (map (bump now cid) cs).
Proof.
  induction 1 as [|c0 c cs0 cs [Hc Hu] _ IH]; cbn [map]; constructor;
    [|exact IH].
  unfold bump. destruct (JS.str_eqb (id c) cid); [|now split].
  split; [exact Hc | cbn; lia].
Qed.

Lemma only_counted_hit (now : Clock.instant) (f1 f2 : option sqlite_error)
    (cid : JS.str) (db0 db : database) :
  only_counted db0 db -> only_counted db0 (updateUsageCount now f1 f2 cid db).
Proof.
  intros [Hc [Hk Hj]]. unfold updateUsageCount, run, insert_usage.
  destruct f1, f2; cbn [with_live live journal foreign_keys increment_usage
    conversations query_keywords];
    repeat match goal with
           | |- context [if ?b then _ else _] => destruct b
           end;
    cbn [with_live live journal foreign_keys increment_usage conversations
         query_keywords];
    repeat split; try assumption; now apply unchanged_but_counted_bump.
Qed.

Lemma only_counted_hits (now : Clock.instant) (faults : find_faults)
    (ids : list JS.str) (db0 : database) :
  forall db, only_counted db0 db ->
             only_counted db0 (fold_left (record_hit now faults) ids db).
Proof.
  induction ids as [|cid ids IH]; intros db H; [exact H|].
  cbn [fold_left]. apply IH. now apply only_counted_hit.
Qed.

(** X5.  A search never rewrites what is cached.  Whatever fails, the
    conversations keep every column but usage_count and updated_at (id,
    query, answer, creation time, fingerprint, similarity score, owner
    tags and metadata), in the same order; their usage counters never
    go down; the keyword entries and the open transaction, if any, are
    untouched.  And the value the search resolves or rejects with does not
    depend on whether the statements that record the hits fail. *)
Theorem search_only_counts (now : Clock.instant) (faults : find_faults)
    (query : JS.str) (limit : option Z) (minSimilarity : option Double.t)
    (db : database) :
  let '(db', result) :=
    findSimilarConversations now faults query limit minSimilarity db in
  Forall2 (fun c c' => content c' = content c
                       /\ (usage_count c <= usage_count c')%Z)
    (conversations (live db)) (conversations (live db'))
  /\ query_keywords (live db') = query_keywords (live db)
  /\ journal db' = journal db
  /\ forall hits,
       snd (findSimilarConversations now
              (mkFindFaults (get_fault faults) (all_fault faults) hits)
              query limit minSimilarity db)
       = result.
Proof.
  assert (Hrefl : only_counted db db).
  { split; [apply unchanged_but_counted_refl | now split]. }
  unfold findSimilarConversations. cbn [get_fault all_fault].
  destruct (get_fault faults);
    [destruct Hrefl as [? [? ?]]; now repeat split|].
  destruct (find _ _) as [exactMatch|].
  - destruct (only_counted_hit now (fst (hit_faults faults (id exactMatch)))
                (snd (hit_faults faults (id exactMatch))) (id exactMatch)
                db db Hrefl) as [? [? ?]]. now repeat split.
  - destruct (extractKeywords query) as [|kw rest];
      [destruct Hrefl as [? [? ?]]; now repeat split|].
    destruct (all_fault faults);
      [destruct Hrefl as [? [? ?]]; now repeat split|].
    destruct (only_counted_hits now faults
                (map (fun r => id (r_conv r))
                   (similar_query (kw :: rest)
                      (default (Double.decimal 3 10) minSimilarity) (default 5%Z limit)
                      (live db)))
                db db Hrefl) as [? [? ?]].
    now repeat split.
Qed.

(** ** Deleting: cleanups and replacements *)

Lemma filter_all {A : Type} (p : A -> bool) (l : list A) :
  (forall a, In a l -> p a = true) -> filter p l = l.
Proof.
  induction l as [|a l IH]; intros H; [reflexivity|]. cbn.
  rewrite (H a (or_introl eq_refl)). f_equal. apply IH.
  intros b Hb. apply H. now right.
Qed.

(** A DELETE whose condition holds of no stored conversation changes
    nothing. *)
Lemma delete_nothing (fk : bool) (doomed : conversation -> bool) (t : tables) :
  (forall c, In c (conversations t) -> doomed c = false) ->
  delete_conversations fk doomed t = t.
Proof.
  intros H. unfold delete_conversations.
  rewrite (filter_none doomed (conversations t) H).
  rewrite !filter_all.
  - apply tables_eta.
  - intros u _. cbn. now rewrite andb_false_r.
  - intros k _. cbn. now rewrite andb_false_r.
  - intros c Hc. now rewrite (H c Hc).
Qed.

Lemma cleanup_unfolded (now : Clock.instant) (daysOld : option Z)
    (db : database) :
  cleanupOldRecords now None daysOld db
  = (with_live db
       (delete_conversations (foreign_keys db) (stale now daysOld) (live db)),
     Resolved
       (Z.of_nat
          (List.length (filter (stale now daysOld) (conversations (live db)))))).
Proof. reflexivity. Qed.

(** X6.  A cleanup is idempotent: run again at the same instant with the
    same age, it finds nothing to remove, resolves with 0 and leaves the
    store as the first run left it. *)
Theorem cleanup_again_removes_nothing (now : Clock.instant)
    (daysOld : option Z) (db : database) :
  let db1 := fst (cleanupOldRecords now None daysOld db) in
  cleanupOldRecords now None daysOld db1 = (db1, Resolved 0%Z).
Proof.
  cbv zeta. rewrite !cleanup_unfolded. cbn [fst].
  set (t1 := delete_conversations (foreign_keys db) (stale now daysOld)
               (live db)).
  assert (Hnone : forall c, In c (conversations t1) ->
                            stale now daysOld c = false).
  { intros c Hc. cbn in Hc. apply filter_In in Hc as [_ Hc].
    now apply negb_true_iff. }
  cbn [with_live live foreign_keys].
  rewrite (filter_none _ _ Hnone), (delete_nothing _ _ t1 Hnone).
  reflexivity.
Qed.

Lemma gone_or_kept (doomed : conversation -> bool) (cs : list conversation)
    (cid : JS.str) :
  NoDup (map id cs) ->
  has_conversation cid cs = true ->
  has_conversation cid (filter doomed cs) = false
  <-> has_conversation cid (filter (fun c => negb (doomed c)) cs) = true.
Proof.
  intros Hnd Hall. apply has_conversation_iff in Hall as [c [Hin Hc]].
  split; intros H.
  - apply has_conversation_iff. exists c. split; [|exact Hc].
    apply filter_In. split; [exact Hin|].
    destruct (doomed c) eqn:E; [|reflexivity].
    assert (Hg : has_conversation cid (filter doomed cs) = true).
    { apply has_conversation_iff. exists c. split; [|exact Hc].
      apply filter_In. now split. }
    congruence.
  - apply has_conversation_iff in H as [c1 [Hin1 Hc1]].
    apply filter_In in Hin1 as [Hin1 Hn1]. apply negb_true_iff in Hn1.
    destruct (has_conversation cid (filter doomed cs)) eqn:Hg; [|reflexivity].
    apply has_conversation_iff in Hg as [c2 [Hin2 Hc2]].
    apply filter_In in Hin2 as [Hin2 Hd2].
    assert (c1 = c2)
      by (apply (NoDup_map_injective id cs); congruence).
    congruence.
Qed.

(** X7.  What a cleanup does to the keyword entries and usage records
    depends on the foreign_keys setting of the connection.  On a store
    with unique ids where every entry and record refers to a stored
    conversation: when foreign keys are enforced, the entries and records
    that remain are exactly those of the conversations that remain; when
    they are not, both tables are left as they were, and the entries of
    the removed conversations stay behind. *)
Theorem cleanup_and_the_child_tables (now : Clock.instant)
    (daysOld : option Z) (db : database)
    (Hkeys : NoDup (map id (conversations (live db))))
    (Hrefs : no_orphans (live db)) :
  let db' := fst (cleanupOldRecords now None daysOld db) in
  if foreign_keys db
  then
    (forall k, In k (query_keywords (live db')) <->
               In k (query_keywords (live db))
               /\ has_conversation (conversation_id k)
                    (conversations (live db')) = true)
    /\ (forall u, In u (usage_stats (live db')) <->
                  In u (usage_stats (live db))
                  /\ has_conversation (u_conversation_id u)
                       (conversations (live db')) = true)
  else
    query_keywords (live db') = query_keywords (live db)
    /\ usage_stats (live db') = usage_stats (live db).
Proof.
  cbv zeta. rewrite cleanup_unfolded.
  cbn [fst live with_live delete_conversations conversations query_keywords
       usage_stats].
  set (doomed := stale now daysOld).
  destruct Hrefs as [Hk Hu]. destruct (foreign_keys db); cbn [andb].
  - split; [intros k | intros u]; rewrite filter_In, negb_true_iff.
    + split; intros [Hin H]; (split; [exact Hin|]);
        now apply (gone_or_kept doomed _ _ Hkeys (Hk k Hin)).
    + split; intros [Hin H]; (split; [exact Hin|]);
        now apply (gone_or_kept doomed _ _ Hkeys (Hu u Hin)).
  - split; apply filter_all; reflexivity.
Qed.

Lemma cleanup_and_the_child_tables_witness :
  NoDup (map id (conversations (live old_indexed)))
  /\ no_orphans (live old_indexed)
  /\ map keyword (query_keywords (live old_indexed))
     = [JS.lit "rust"; JS.lit "lang"]
  /\ (forall k,
        In k (query_keywords
                (live (fst (cleanupOldRecords noon None (Some 30%Z)
                              old_indexed))))
        <-> In k (query_keywords (live old_indexed))
            /\ has_conversation (conversation_id k)
                 (conversations
                    (live (fst (cleanupOldRecords noon None (Some 30%Z)
                                  old_indexed)))) = true)
  /\ query_keywords
       (live (fst (cleanupOldRecords noon None (Some 30%Z) old_indexed)))
     = [].
Proof.
  assert (Hkeys : NoDup (map id (conversations (live old_indexed)))).
  { vm_compute. repeat constructor. intros []. }
  assert (Hrefs : no_orphans (live old_indexed)).
  { split.
    - intros k Hk. vm_compute in Hk.
      destruct Hk as [<-|[<-|[]]]; vm_compute; reflexivity.
    - intros u Hu. vm_compute in Hu. destruct Hu. }
  split; [exact Hkeys|]. split; [exact Hrefs|].
  split; [vm_compute; reflexivity|].
  pose proof (cleanup_and_the_child_tables noon (Some 30%Z) old_indexed Hkeys
                Hrefs) as H.
  assert (Hfk : foreign_keys old_indexed = true) by reflexivity.
  cbv zeta in H. rewrite Hfk in H.
  split; [exact (proj1 H) | vm_compute; reflexivity].
Defined.



(** ** The transaction a save leaves open *)








(** ** Statistics: [getCacheStats] *)

Lemma max_of_list (xs : list Z) :
  forall x : Z,
    (x <= fold_left Z.max xs x)%Z
    /\ (forall y, In y xs -> (y <= fold_left Z.max xs x)%Z)
    /\ In (fold_left Z.max xs x) (x :: xs).
Proof.
  induction xs as [|y xs IH]; intros x; cbn [fold_left].
  - split; [lia|]. split; [easy | now left].
  - destruct (IH (Z.max x y)) as [H1 [H2 H3]]. split; [lia|]. split.
    + intros z [<-|Hz]; [lia | now apply H2].
    + destruct H3 as [H3|H3].
      * rewrite <- H3.
        destruct (Z.max_spec x y) as [[_ E]|[_ E]]; rewrite E;
          [right; now left | now left].
      * right. now right.
Qed.

Lemma sum_between (xs : list Z) (m : Z) :
  (forall y, In y xs -> (1 <= y <= m)%Z) ->
  (Z.of_nat (List.length xs) <= fold_right Z.add 0 xs
   <= m * Z.of_nat (List.length xs))%Z.
Proof.
  induction xs as [|y xs IH]; intros H; [cbn; lia|].
  assert (Hy := H y (or_introl eq_refl)).
  assert (Hxs : forall z, In z xs -> (1 <= z <= m)%Z)
    by (intros z Hz; apply H; now right).
  specialize (IH Hxs). cbn [fold_right List.length]. lia.
Qed.

Lemma rounded_between (a : Q) (m : Z) :
  1 <= a -> a <= inject_Z m ->
  1 <= inject_Z (Math_round (a * 100)) / 100
  /\ inject_Z (Math_round (a * 100)) / 100 <= inject_Z m.
Proof.
  intros Hlo Hhi. unfold Math_round.
  set (F := Qfloor (a * 100 + (1 # 2))).
  assert (H1 : (100 <= F)%Z).
  { change 100%Z with (Qfloor (inject_Z 100)). apply Qfloor_resp_le.
    change (inject_Z 100) with 100%Q. lra. }
  assert (H2 : (F <= 100 * m)%Z).
  { assert (Hf : inject_Z F <= a * 100 + (1 # 2)) by apply Qfloor_le.
    assert (Hlt : inject_Z F < inject_Z (100 * m + 1)).
    { rewrite inject_Z_plus, inject_Z_mult.
      change (inject_Z 100) with 100%Q. change (inject_Z 1) with 1%Q. lra. }
    rewrite <- Zlt_Qlt in Hlt. lia. }
  rewrite Zle_Qle in H1, H2.
  rewrite inject_Z_mult in H2. change (inject_Z 100) with 100%Q in *.
  split.
  - apply Qle_shift_div_l; [reflexivity | lra].
  - apply Qle_shift_div_r; [reflexivity | lra].
Qed.

(** X10.  The usage figures of the statistics.  In every reachable state,
    when none of the five statements fails, [getCacheStats] resolves; on
    an empty store the maximum is null and the average is 0; otherwise the
    maximum is the largest stored usage counter and the average, rounded
    to two decimals, lies between 1 and that maximum. *)
Theorem usage_statistics_are_bounded (fk : bool) (db : database)
    (Hreach : reachable fk db) :
  exists s,
    getCacheStats (fun _ => None) db = Resolved s
    /\ match maxUsage s with
       | None => conversations (live db) = [] /\ avgUsage s == 0
       | Some m =>
         (forall c, In c (conversations (live db)) -> (usage_count c <= m)%Z)
         /\ (exists c, In c (conversations (live db)) /\ usage_count c = m)
         /\ 1 <= avgUsage s /\ avgUsage s <= inject_Z m
       end.
Proof.
  destruct (usage_positive_reachable fk db Hreach) as [Hpos _].
  unfold getCacheStats. cbn [first_fault fold_right seq]. eexists.
  split; [reflexivity|]. cbn [maxUsage avgUsage].
  destruct (conversations (live db)) as [|c0 cs] eqn:E.
  - cbn. split; [reflexivity|]. reflexivity.
  - cbn [map MAX].
    destruct (max_of_list (map usage_count cs) (usage_count c0)) as [M1 [M2 M3]].
    set (m := fold_left Z.max (map usage_count cs) (usage_count c0)) in *.
    assert (Hall : forall c, In c (c0 :: cs) -> (1 <= usage_count c <= m)%Z).
    { intros c Hc. split; [apply Hpos; rewrite E; exact Hc|].
      destruct Hc as [<-|Hc]; [exact M1|]. apply M2. now apply in_map. }
    split; [intros c Hc; now apply Hall|]. split.
    + change (usage_count c0 :: map usage_count cs)
        with (map usage_count (c0 :: cs)) in M3.
      apply in_map_iff in M3 as [c [Hc Hin]]. now exists c.
    + assert (Hsum := sum_between (map usage_count (c0 :: cs)) m).
      assert (Hsum' : (Z.of_nat (List.length (map usage_count (c0 :: cs)))
                       <= fold_right Z.add 0 (map usage_count (c0 :: cs))
                       <= m * Z.of_nat (List.length (map usage_count (c0 :: cs))))%Z).
      { apply Hsum. intros y Hy. apply in_map_iff in Hy as [c [<- Hc]].
        now apply Hall. }
      clear Hsum. cbn [AVG map] in *.
      set (n := Z.of_nat (List.length (usage_count c0 :: map usage_count cs))) in *.
      set (total := fold_right Z.add 0%Z (usage_count c0 :: map usage_count cs)) in *.
      assert (Hn : (0 < n)%Z) by (unfold n; cbn [List.length]; lia).
      assert (Hn' : 0 < inject_Z n)
        by (change 0 with (inject_Z 0); now rewrite <- Zlt_Qlt).
      apply rounded_between.
      * apply Qle_shift_div_l; [exact Hn'|]. rewrite Qmult_1_l.
        rewrite <- Zle_Qle. lia.
      * apply Qle_shift_div_r; [exact Hn'|]. rewrite <- inject_Z_mult.
        rewrite <- Zle_Qle. lia.
Qed.

Lemma usage_statistics_are_bounded_witness :
  reachable true two_saved
  /\ exists s,
       getCacheStats (fun _ => None) two_saved = Resolved s
       /\ maxUsage s = Some 5%Z
       /\ 1 <= avgUsage s /\ avgUsage s <= 5.
Proof.
  assert (Hreach : reachable true two_saved)
    by (unfold two_saved, save_at; apply reach_save, old_popular_reachable).
  split; [exact Hreach|].
  destruct (usage_statistics_are_bounded true two_saved Hreach)
    as [s [Hs Hbounds]].
  exists s. split; [exact Hs|].
  assert (Hm : maxUsage s = Some 5%Z).
  { assert (E : Resolved s = getCacheStats (fun _ => None) two_saved)
      by now symmetry.
    assert (Hmax : match getCacheStats (fun _ => None) two_saved with
                   | Resolved s' => maxUsage s'
                   | Rejected _ => None
                   end = Some 5%Z) by (vm_compute; reflexivity).
    now rewrite <- E in Hmax. }
  split; [exact Hm|]. rewrite Hm in Hbounds.
  destruct Hbounds as [_ [_ [Hlo Hhi]]]. split; [exact Hlo | exact Hhi].
Defined.

(** ** Keywords of a text in pieces *)

Ltac decide_comparisons :=
  repeat match goal with
         | |- context [(?a <=? ?b)%N] =>
           destruct (N.leb_spec a b); cbn [andb orb negb]; try lia
         | |- context [(?a =? ?b)%N] =>
           destruct (N.eqb_spec a b); cbn [andb orb negb]; try lia
         end;
  try reflexivity.

Lemma lower_unit_cases (u : N) :
  ((0x41 <= u <= 0x5A)%N /\ JS.lower_unit u = (u + 0x20)%N)
  \/ ((0x410 <= u <= 0x42F)%N /\ JS.lower_unit u = (u + 0x20)%N)
  \/ ((0xC0 <= u <= 0xDE)%N /\ JS.lower_unit u = (u + 0x20)%N)
  \/ ((0x400 <= u <= 0x40F)%N /\ JS.lower_unit u = (u + 0x50)%N)
  \/ (~ (0x41 <= u <= 0x5A)%N /\ ~ (0x410 <= u <= 0x42F)%N
      /\ JS.lower_unit u = u).
Proof.
  unfold JS.lower_unit. split_comparisons; lia.
Qed.

(** Lower-casing turns letters into letters and leaves the other code
    units outside the alphabet of the tokenizer. *)
Lemma is_word_unit_lower (u : N) :
  Natural.is_word_unit (JS.lower_unit u) = Natural.is_word_unit u.
Proof.
  destruct (lower_unit_cases u) as [[H ->]|[[H ->]|[[H ->]|[[H ->]|[H1 [H2 ->]]]]]];
    [| | | |reflexivity]; unfold Natural.is_word_unit; decide_comparisons.
Qed.

Lemma split_words_at_separator (u : N) (b : JS.str) :
  Natural.is_word_unit u = false ->
  forall a cur : JS.str,
    Natural.split_words (a ++ u :: b) cur
    = Natural.split_words a cur ++ Natural.split_words b [].
Proof.
  intros Hu. induction a as [|x a IH]; intros cur.
  - cbn [app Natural.split_words]. rewrite Hu. now destruct cur.
  - cbn [app Natural.split_words]. destruct (Natural.is_word_unit x).
    + apply IH.
    + destruct cur; rewrite IH; reflexivity.
Qed.

(** X11.  The keywords of a text cut at a separator.  In a text made of
    the characters the model lower-cases (Basic Latin, Latin-1, U+0400 to
    U+045F), a code unit outside the alphabet of the tokenizer (a space, a
    comma, a line break, ...) ends a word and leaves no other trace: the
    keywords of two texts joined by such a unit are the keywords of the
    first followed by those of the second, and such a unit at the start or
    at the end of a text does not change its keywords. *)
Theorem keywords_of_separated_texts (a b : JS.str) (u : N)
    (Hcovered : JS.covered (a ++ u :: b) = true)
    (Hsep : Natural.is_word_unit u = false) :
  extractKeywords (a ++ u :: b) = extractKeywords a ++ extractKeywords b
  /\ extractKeywords (u :: a) = extractKeywords a
  /\ extractKeywords (a ++ [u]) = extractKeywords a.
Proof.
  clear Hcovered.
  assert (H : forall x y,
            extractKeywords (x ++ u :: y)
            = extractKeywords x ++ extractKeywords y).
  { intros x y. unfold extractKeywords, JS.toLowerCase, Natural.tokenize.
    rewrite map_app. cbn [map].
    rewrite split_words_at_separator
      by (now rewrite is_word_unit_lower).
    now rewrite !filter_app, map_app, filter_app. }
  split; [apply H|]. split.
  - apply (H [] a).
  - rewrite H. apply app_nil_r.
Qed.

Lemma keywords_of_separated_texts_witness :
  JS.covered (JS.lit "what is rust" ++ 0x2C%N :: JS.lit "and why") = true
  /\ Natural.is_word_unit 0x2C%N = false
  /\ extractKeywords (JS.lit "what is rust" ++ 0x2C%N :: JS.lit "and why")
     = extractKeywords (JS.lit "what is rust")
       ++ extractKeywords (JS.lit "and why").
Proof.
  assert (Hc : JS.covered
                 (JS.lit "what is rust" ++ 0x2C%N :: JS.lit "and why") = true)
    by (vm_compute; reflexivity).
  split; [exact Hc|]. split; [reflexivity|].
  exact (proj1 (keywords_of_separated_texts (JS.lit "what is rust")
                  (JS.lit "and why") 0x2C%N Hc eq_refl)).
Defined.

(** ** The routes *)

Import Server.

Lemma matches_of_unique_id (cid : JS.str) (cs : list conversation) :
  NoDup (map id cs) ->
  List.length (filter (fun c => JS.str_eqb (id c) cid) cs)
  = if has_conversation cid cs then 1%nat else 0%nat.
Proof.
  induction cs as [|c cs IH]; intros Hnd; [reflexivity|].
  apply NoDup_cons_iff in Hnd as [Hfresh Hnd]. cbn [filter has_conversation existsb].
  destruct (JS.str_eqb (id c) cid) eqn:E.
  - apply str_eqb_eq in E. cbn [orb List.length]. rewrite filter_none; [reflexivity|].
    intros c' Hc'. apply str_eqb_neq. intros Heq. apply Hfresh.
    rewrite E, <- Heq. now apply in_map.
  - cbn [orb]. now apply IH.
Qed.

(** X12.  DELETE /api/cache/conversation/:id on a store with unique ids,
    when the statement does not fail: the reply counts 1 and says deleted
    if the conversation was stored, 0 and says not found otherwise; no
    conversation with that id is left and the others are kept; a second
    request for the same id is answered with 0 and changes nothing; and a
    GET of that id is answered with 404. *)
Theorem delete_route_removes_once (cid : JS.str) (db : database)
    (Hkeys : NoDup (map id (conversations (live db)))) :
  let '(db1, reply) := delete_conversation None cid db in
  reply
  = (if has_conversation cid (conversations (live db))
     then delete_ok 1 (JS.lit "Разговор удален")
     else delete_ok 0 (JS.lit "Разговор не найден"))
  /\ has_conversation cid (conversations (live db1)) = false
  /\ (forall c, In c (conversations (live db)) -> id c <> cid ->
                In c (conversations (live db1)))
  /\ delete_conversation None cid db1
     = (db1, delete_ok 0 (JS.lit "Разговор не найден"))
  /\ get_conversation None None cid db1 = detail_404.
Proof.
  unfold delete_conversation at 1.
  set (target := fun c : conversation => JS.str_eqb (id c) cid).
  set (t1 := delete_conversations (foreign_keys db) target (live db)).
  assert (Hnone : forall c, In c (conversations t1) -> target c = false).
  { intros c Hc. cbn in Hc. apply filter_In in Hc as [_ Hc].
    now apply negb_true_iff. }
  split; [|split; [|split; [|split]]].
  - unfold target. rewrite (matches_of_unique_id cid _ Hkeys).
    now destruct (has_conversation cid (conversations (live db))).
  - cbn [with_live live]. unfold has_conversation.
    destruct (existsb _ (conversations t1)) eqn:E; [|reflexivity].
    apply existsb_exists in E as [c [Hc E]]. specialize (Hnone c Hc).
    unfold target in Hnone. congruence.
  - intros c Hc Hid. cbn [with_live live]. cbn. apply filter_In.
    split; [exact Hc|]. apply negb_true_iff. now apply str_eqb_neq.
  - unfold delete_conversation. cbn [with_live live foreign_keys].
    fold target. rewrite (filter_none target _ Hnone).
    now rewrite (delete_nothing _ target t1 Hnone).
  - unfold get_conversation. cbn [with_live live]. fold target.
    now rewrite (find_nothing target _ Hnone).
Qed.

Lemma delete_route_removes_once_witness :
  NoDup (map id (conversations (live two_greek)))
  /\ snd (delete_conversation None (JS.lit "id-1") two_greek)
     = delete_ok 1 (JS.lit "Разговор удален")
  /\ get_conversation None None (JS.lit "id-1")
       (fst (delete_conversation None (JS.lit "id-1") two_greek))
     = detail_404.
Proof.
  assert (Hkeys : NoDup (map id (conversations (live two_greek)))).
  { vm_compute. repeat constructor; cbn; intuition discriminate. }
  split; [exact Hkeys|].
  pose proof (delete_route_removes_once (JS.lit "id-1") two_greek Hkeys) as H.
  destruct (delete_conversation None (JS.lit "id-1") two_greek)
    as [db1 reply].
  destruct H as [Hreply [_ [_ [_ Hget]]]]. cbn [fst snd].
  split; [|exact Hget]. rewrite Hreply.
  assert (Hhas : has_conversation (JS.lit "id-1")
                   (conversations (live two_greek)) = true)
    by (vm_compute; reflexivity).
  now rewrite Hhas.
Defined.





